(** * TOPSIS scoring: a shallow embedding of [topsis.py]

    The command-line program reads a CSV table, validates it together with a
    weight string and an impact string, runs the five numerical steps of
    TOPSIS on the criterion columns and writes the table back with a score
    column and a rank column.

    The embedding follows [topsis] statement by statement.  Numbers are kept
    behind a small interface, [Arith]; its instance [binary64] is IEEE
    binary64 with round to nearest even, what numpy computes with. *)

From Stdlib Require Import List String Ascii ZArith QArith Lia Bool.
From Stdlib Require Import Floats.
From stdpp Require Import gmap strings.
Import ListNotations.

Set Warnings "-inexact-float".
Local Open Scope string_scope.
Local Open Scope Z_scope.

(** ** Numbers *)

(** What the pipeline needs from float64.  [of_int] is [astype(float)] on an
    integer cell, [float_of_string] is Python's [float(s)], with [None] for
    [ValueError]. *)
Class Arith (F : Type) := {
  fzero : F;
  fnan : F;
  fadd : F -> F -> F;
  fsub : F -> F -> F;
  fmul : F -> F -> F;
  fdiv : F -> F -> F;
  fsqrt : F -> F;
  fltb : F -> F -> bool;
  feqb : F -> F -> bool;
  of_int : Z -> F;
  float_of_string : string -> option F
}.

(** ** Strings *)

(** [s.split(",")]: the empty string gives one empty token, a trailing
    separator gives a trailing empty token. *)
Fixpoint split_on (sep : ascii) (s : string) : list string :=
  match s with
  | EmptyString => [EmptyString]
  | String c r =>
      if Ascii.eqb c sep then EmptyString :: split_on sep r
      else match split_on sep r with
           | h :: t => String c h :: t
           | [] => [String c EmptyString]
           end
  end.

Definition split_comma (s : string) : list string := split_on "," s.

(** *** Decimal literals

    Python's [float] on a string: blanks around the literal are dropped,
    the literal is [[+-] digits [. digits] [(e|E) [+-] digits]] with at least
    one digit in the mantissa and single underscores allowed between digits,
    or one of the words [nan], [inf], [infinity] in any case with an optional
    sign.  Only ASCII digits and blanks are modelled. *)

Definition is_space (c : ascii) : bool :=
  let n := nat_of_ascii c in
  ((n =? 32)%nat || ((9 <=? n)%nat && (n <=? 13)%nat))%bool.

Fixpoint lstrip (s : string) : string :=
  match s with
  | String c r => if is_space c then lstrip r else s
  | EmptyString => s
  end.

Fixpoint rstrip (s : string) : string :=
  match s with
  | EmptyString => EmptyString
  | String c r =>
      match rstrip r with
      | EmptyString => if is_space c then EmptyString else String c EmptyString
      | r' => String c r'
      end
  end.

Definition strip (s : string) : string := rstrip (lstrip s).

Definition lower_ascii (c : ascii) : ascii :=
  let n := nat_of_ascii c in
  if ((65 <=? n)%nat && (n <=? 90)%nat)%bool then ascii_of_nat (n + 32) else c.

Fixpoint lower (s : string) : string :=
  match s with
  | EmptyString => EmptyString
  | String c r => String (lower_ascii c) (lower r)
  end.

Definition digit_of (c : ascii) : option Z :=
  let n := nat_of_ascii c in
  if ((48 <=? n)%nat && (n <=? 57)%nat)%bool then Some (Z.of_nat (n - 48)) else None.

(** Reads a run of digits into [acc], counting them in [cnt]; an underscore
    is passed over when it stands between two digits. *)
Fixpoint read_digits (s : string) (acc : Z) (cnt : nat) : Z * nat * string :=
  match s with
  | String c r =>
      match digit_of c with
      | Some d => read_digits r (10 * acc + d) (S cnt)
      | None =>
          match r with
          | String c' r' =>
              match digit_of c' with
              | Some d =>
                  if (Ascii.eqb c "_" && negb (cnt =? 0)%nat)%bool
                  then read_digits r' (10 * acc + d) (S cnt)
                  else (acc, cnt, s)
              | None => (acc, cnt, s)
              end
          | EmptyString => (acc, cnt, s)
          end
      end
  | EmptyString => (acc, cnt, s)
  end.

Definition read_sign (s : string) : bool * string :=
  match s with
  | String "-" r => (true, r)
  | String "+" r => (false, r)
  | _ => (false, s)
  end.

(** [(-1)^dneg * dmant * 10^dexp] *)
Record decimal := { dneg : bool; dmant : Z; dexp : Z }.

Definition parse_decimal (s : string) : option decimal :=
  let (neg, s1) := read_sign s in
  let '(ip, ni, s2) := read_digits s1 0 0 in
  let '(m, nf, s3) :=
    match s2 with
    | String "." r => read_digits r ip 0
    | _ => (ip, 0%nat, s2)
    end in
  if (ni + nf =? 0)%nat then None
  else match s3 with
       | EmptyString => Some {| dneg := neg; dmant := m; dexp := - Z.of_nat nf |}
       | String c r =>
           if (Ascii.eqb c "e" || Ascii.eqb c "E")%bool then
             let (eneg, r1) := read_sign r in
             let '(ev, ne, r2) := read_digits r1 0 0 in
             if (ne =? 0)%nat then None
             else match r2 with
                  | EmptyString =>
                      Some {| dneg := neg; dmant := m;
                              dexp := (if eneg then - ev else ev) - Z.of_nat nf |}
                  | _ => None
                  end
           else None
       end.

(** ** The binary64 instance *)

(** The nearest binary64 value of a decimal, ties to even: an integer is
    rounded once, a proper fraction is divided with the remainder kept as the
    rounding location. *)
Definition sf_of_decimal (d : decimal) : spec_float :=
  match dmant d with
  | Zpos m =>
      if 0 <=? dexp d then binary_round prec emax (dneg d) (m * Z.to_pos (10 ^ dexp d)) 0
      else
        let '(q, e, l) :=
          SFdiv_core_binary prec emax (Zpos m) 0 (10 ^ (- dexp d)) 0 in
        binary_round_aux prec emax (dneg d) q e l
  | _ => S754_zero (dneg d)
  end.

Definition float64_of_string (s : string) : option float :=
  let t := strip s in
  let word := lower t in
  if existsb (String.eqb word) ["nan"; "+nan"; "-nan"] then Some nan
  else if existsb (String.eqb word) ["inf"; "+inf"; "infinity"; "+infinity"] then Some infinity
  else if existsb (String.eqb word) ["-inf"; "-infinity"] then Some neg_infinity
  else option_map (fun d => SF2Prim (sf_of_decimal d)) (parse_decimal t).

Definition float64_of_int (z : Z) : float :=
  SF2Prim (binary_normalize prec emax z 0 false).

#[export] Instance binary64 : Arith float := {|
  fzero := PrimFloat.zero;
  fnan := PrimFloat.nan;
  fadd := PrimFloat.add;
  fsub := PrimFloat.sub;
  fmul := PrimFloat.mul;
  fdiv := PrimFloat.div;
  fsqrt := PrimFloat.sqrt;
  fltb := PrimFloat.ltb;
  feqb := PrimFloat.eqb;
  of_int := float64_of_int;
  float_of_string := float64_of_string
|}.

(** *** The values of binary64

    A positive finite binary64 number is a mantissa [m] and an exponent [e],
    of value [m * 2 ^ e], with [e] at least [-1074]. *)

(** The value in units of [2 ^ -1074], the smallest positive number. *)
Definition sf_value (m : positive) (e : Z) : Z := Zpos m * 2 ^ (e + 1074).

(** The number one. *)
Definition SF_one : spec_float := S754_finite false 4503599627370496 (-52).

(** Not below zero: a zero of either sign, a positive number, positive
    infinity, or NaN. *)
Definition SF_nonneg (x : spec_float) : Prop :=
  match x with
  | S754_finite true _ _ | S754_infinity true => False
  | _ => True
  end.

(** ** Tables *)

(** A cell as [pd.read_csv] leaves it: an integer, a float, a truth value
    (a column of [True] and [False] only), or text. *)
Inductive cell (F : Type) :=
| CInt (z : Z)
| CFloat (x : F)
| CBool (b : bool)
| CStr (s : string).
Arguments CInt {F} z.
Arguments CFloat {F} x.
Arguments CBool {F} b.
Arguments CStr {F} s.

(** A DataFrame, column by column, in column order.  [pd.read_csv] makes the
    column names distinct and the columns equally long. *)
Definition DataFrame (F : Type) := list (string * list (cell F)).

Definition nrows {F} (df : DataFrame F) : nat :=
  match df with
  | [] => 0%nat
  | (_, c) :: _ => length c
  end.

Definition rectangular {F} (df : DataFrame F) : Prop :=
  Forall (fun c => length (snd c) = nrows df) df.

Definition has_column {F} (name : string) (df : DataFrame F) : bool :=
  existsb (fun c => String.eqb (fst c) name) df.

(** [df[name] = col]: an existing column of that name is replaced where it
    stands, otherwise the column is appended. *)
Definition set_column {F} (name : string) (col : list (cell F)) (df : DataFrame F)
  : DataFrame F :=
  if has_column name df
  then map (fun c => if String.eqb (fst c) name then (name, col) else c) df
  else (df ++ [(name, col)])%list.

(** ** The numerical pipeline *)

Section Pipeline.
Context {F : Type} `{Arith F}.

(** [x != x], pandas' test for a missing float. *)
Definition isna (x : F) : bool := negb (feqb x x).

Definition notna (x : F) : bool := negb (isna x).

(** [float(cell)], as [astype(float)] applies it to every cell. *)
Definition cell_to_float (c : cell F) : option F :=
  match c with
  | CInt z => Some (of_int z)
  | CFloat x => Some x
  | CBool b => Some (of_int (if b then 1 else 0))
  | CStr s => float_of_string s
  end.

(** [mapM]: all the results, or [None] at the first failure. *)
Fixpoint all_some {A B} (f : A -> option B) (l : list A) : option (list B) :=
  match l with
  | [] => Some []
  | a :: r =>
      match f a with
      | None => None
      | Some b =>
          match all_some f r with
          | None => None
          | Some bs => Some (b :: bs)
          end
      end
  end.

(** [data.astype(float)] on the criterion columns. *)
Definition astype_float (data : DataFrame F) : option (list (list F)) :=
  all_some (fun c => all_some cell_to_float (snd c)) data.

(** numpy's sum of a contiguous vector ([np.add.reduce], pairwise
    summation).  Fewer than eight numbers are added to zero from left to
    right.  Up to 128 numbers go into eight running sums, entry [8 * t + k]
    into sum [k]; the eight sums are added pairwise and what is left after
    the last full block of eight is added one by one.  A longer vector is cut
    at a multiple of eight near the middle and the sums of the halves are
    added; [fuel] bounds the number of nested cuts, and the length of the
    vector is more than enough.  Sums of squares have no negative zero, so the
    zero that numpy's reduction starts from changes nothing and is left
    out. *)
Definition add_lanes (r : list F) : F :=
  match r with
  | [r0; r1; r2; r3; r4; r5; r6; r7] =>
      fadd (fadd (fadd r0 r1) (fadd r2 r3)) (fadd (fadd r4 r5) (fadd r6 r7))
  | _ => fold_left fadd r fzero
  end.

Fixpoint add_blocks (fuel : nat) (r l : list F) : list F * list F :=
  match fuel with
  | O => (r, l)
  | S k =>
      if (8 <=? length l)%nat
      then add_blocks k (zip_with fadd r (firstn 8 l)) (skipn 8 l)
      else (r, l)
  end.

Definition unrolled_sum (l : list F) : F :=
  let '(r, rest) := add_blocks (length l) (firstn 8 l) (skipn 8 l) in
  fold_left fadd rest (add_lanes r).

Fixpoint pairwise_sum (fuel : nat) (l : list F) : F :=
  match fuel with
  | O => fold_left fadd l fzero
  | S k =>
      let n := length l in
      if (n <? 8)%nat then fold_left fadd l fzero
      else if (n <=? 128)%nat then unrolled_sum l
      else
        let n2 := (n / 2 - (n / 2) mod 8)%nat in
        fadd (pairwise_sum k (firstn n2 l)) (pairwise_sum k (skipn n2 l))
  end.

Definition np_sum (l : list F) : F := pairwise_sum (length l) l.

(** pandas' sum of a column with [skipna=True]: missing values count as
    zero, and the numbers are handed to numpy's sum. *)
Definition nansum (l : list F) : F :=
  np_sum (map (fun x => if isna x then fzero else x) l).

Definition fmax (a b : F) : F := if fltb a b then b else a.
Definition fmin (a b : F) : F := if fltb b a then b else a.

(** pandas' [max] and [min] with [skipna=True]: missing values are left
    out, and a column with nothing left gives NaN. *)
Definition nanmax (l : list F) : F :=
  match List.filter notna l with
  | [] => fnan
  | x :: r => fold_left fmax r x
  end.

Definition nanmin (l : list F) : F :=
  match List.filter notna l with
  | [] => fnan
  | x :: r => fold_left fmin r x
  end.

Definition square (x : F) : F := fmul x x.

(** [norm = np.sqrt((data ** 2).sum())], one value per column. *)
Definition norm (col : list F) : F := fsqrt (nansum (map square col)).

(** [normalized_data = data / norm] *)
Definition normalize (data : list (list F)) : list (list F) :=
  map (fun col => map (fun x => fdiv x (norm col)) col) data.

(** [weighted_data = normalized_data * weight_list]: column [j] times
    [weight_list[j]].  The two lengths agree after validation. *)
Definition apply_weights (cols : list (list F)) (ws : list F) : list (list F) :=
  zip_with (fun col w => map (fun x => fmul x w) col) cols ws.

(** The two ideal vectors, built by the loop over [enumerate(impact_list)]. *)
Definition ideal_best (weighted : list (list F)) (impacts : list string) : list F :=
  zip_with (fun col imp => if String.eqb imp "+" then nanmax col else nanmin col)
           weighted impacts.

Definition ideal_worst (weighted : list (list F)) (impacts : list string) : list F :=
  zip_with (fun col imp => if String.eqb imp "+" then nanmin col else nanmax col)
           weighted impacts.

(** [sum(axis=1)] with [skipna=True] over [n] rows: the columns are added
    into the row totals one after the other. *)
Definition row_nansum (n : nat) (cols : list (list F)) : list F :=
  fold_left
    (fun acc col => zip_with fadd acc (map (fun x => if isna x then fzero else x) col))
    cols (repeat fzero n).

(** [(weighted_data - ideal) ** 2]: column [j] against [ideal[j]]. *)
Definition deviations (weighted : list (list F)) (ideal : list F) : list (list F) :=
  zip_with (fun col b => map (fun x => square (fsub x b)) col) weighted ideal.

(** [np.sqrt(((weighted_data - ideal) ** 2).sum(axis=1))] *)
Definition distance (n : nat) (weighted : list (list F)) (ideal : list F) : list F :=
  map fsqrt (row_nansum n (deviations weighted ideal)).

(** [score = d_worst / (d_best + d_worst)] *)
Definition closeness (d_best d_worst : list F) : list F :=
  zip_with (fun db dw => fdiv dw (fadd db dw)) d_best d_worst.

(** No entry of the matrix is a missing value. *)
Definition present (cols : list (list F)) : Prop :=
  Forall (Forall (fun x => notna x = true)) cols.

(** Lines 43 to 59 of [topsis]. *)
Definition topsis_scores (n : nat) (data : list (list F)) (ws : list F)
           (impacts : list string) : list F :=
  let weighted := apply_weights (normalize data) ws in
  let d_best := distance n weighted (ideal_best weighted impacts) in
  let d_worst := distance n weighted (ideal_worst weighted impacts) in
  closeness d_best d_worst.

End Pipeline.

(** ** Ranking *)

Section Ranking.
Context {F : Type} `{Arith F}.

Definition count_greater (x : F) (s : list F) : nat :=
  length (List.filter (fun y => fltb x y) s).

Definition count_equal (x : F) (s : list F) : nat :=
  length (List.filter (fun y => feqb y x) s).

(** In descending order a group of [t] equal values below [g] greater ones
    takes the positions [g+1 .. g+t]; pandas' default method, [average],
    gives each member the mean of these positions.  The mean is a whole or a
    half number, which binary64 holds exactly; it is kept as a rational. *)
Definition average_position (g t : nat) : Q :=
  Qdiv (inject_Z (fold_right Z.add 0 (map (fun k => Z.of_nat (g + k)) (seq 1 t))))
       (inject_Z (Z.of_nat t)).

(** [Series.rank(ascending=False)]: a missing value keeps a missing rank
    ([na_option='keep']). *)
Definition rank_descending (s : list F) : list (option Q) :=
  map (fun x =>
         if isna x then None
         else Some (average_position (count_greater x s) (count_equal x s)))
      s.

(** Conversion of one float to [int]: truncation towards zero. *)
Definition qtrunc (q : Q) : Z := Z.quot (Qnum q) (Zpos (Qden q)).

(** [.astype(int)] on a float column: pandas raises [ValueError] when a
    value is missing; [None] stands for that. *)
Definition astype_int (r : list (option Q)) : option (list Z) :=
  all_some (option_map qtrunc) r.

(** The ranks of the whole column as integers, when no score is missing. *)
Definition int_ranks (s : list F) : list Z :=
  map (fun x => qtrunc (average_position (count_greater x s) (count_equal x s))) s.

(** Standard competition ranking, as the specification states it: one
    more than the number of strictly greater scores. *)
Definition competition_rank (s : list F) (x : F) : Z :=
  1 + Z.of_nat (count_greater x s).

End Ranking.

(** ** The program *)

Inductive file (F : Type) :=
| Csv (df : DataFrame F)
| Unreadable (err : string).
Arguments Csv {F} df.
Arguments Unreadable {F} err.

(** The files by path, each as [pd.read_csv] would see it (a table, or the
    text of the exception it raises), and the lines printed so far. *)
Record world (F : Type) := World {
  fs : gmap string (file F);
  stdout : list string
}.
Arguments World {F} fs stdout.
Arguments fs {F} w.
Arguments stdout {F} w.

Inductive exn := ValueError (msg : string).

Inductive outcome (A : Type) :=
| Returned (a : A)
| Raised (e : exn).
Arguments Returned {A} a.
Arguments Raised {A} e.

Definition print {F} (line : string) (w : world F) : world F :=
  World (fs w) (stdout w ++ [line])%list.

(** [df.to_csv(path, index=False)]: the file at [path] becomes the table.
    The write itself is taken to succeed. *)
Definition to_csv {F} (path : string) (df : DataFrame F) (w : world F) : world F :=
  World (<[path := Csv df]> (fs w)) (stdout w).

Definition msg_not_found (input_file : string) : string :=
  "Error: File '" ++ input_file ++ "' not found.".
Definition msg_unreadable (e : string) : string :=
  "Error: Could not read CSV file. " ++ e.
Definition msg_columns : string :=
  "Error: Input file must have at least 3 columns (first column names, others numeric).".
Definition msg_numeric : string :=
  "Error: All criteria columns must be numeric.".
Definition msg_count : string :=
  "Error: Number of weights and impacts must match number of criteria columns.".
Definition msg_weights : string :=
  "Error: Weights must be numeric.".
Definition msg_impacts : string :=
  "Error: Impacts must be '+' or '-' only.".
Definition msg_done (output_file : string) : string :=
  "TOPSIS completed successfully! Result saved as '" ++ output_file ++ "'".
Definition msg_usage : string :=
  "Usage: python topsis.py <InputDataFile> <Weights> <Impacts> <OutputResultFileName>".
(** The message of the [ValueError] that [astype(int)] raises on a missing
    value; the wording is that of pandas 2 and is not part of what the
    program promises. *)
Definition msg_int_cast : string :=
  "Cannot convert non-finite values (NA or inf) to integer".

Section Program.
Context {F : Type} `{Arith F}.

Definition valid_impact (imp : string) : bool :=
  existsb (String.eqb imp) ["+"; "-"].

(** Lines 43 to 64: the scores, the two new columns, the file.  The ranks
    are taken from [df["Topsis Score"]], which is the column just stored. *)
Definition score_and_save (df : DataFrame F) (data : list (list F)) (ws : list F)
           (impact_list : list string) (output_file : string) (w : world F)
  : outcome unit * world F :=
  let score := topsis_scores (nrows df) data ws impact_list in
  let df1 := set_column "Topsis Score" (map CFloat score) df in
  match astype_int (rank_descending score) with
  | None => (Raised (ValueError msg_int_cast), w)
  | Some ranks =>
      let df2 := set_column "Rank" (map CInt ranks) df1 in
      (Returned tt, print (msg_done output_file) (to_csv output_file df2 w))
  end.

(** The table that a completed run stores. *)
Definition result_table (df : DataFrame F) (score : list F) : DataFrame F :=
  set_column "Rank" (map CInt (int_ranks score))
             (set_column "Topsis Score" (map CFloat score) df).

(** [topsis(input_file, weights, impacts, output_file)]; [Returned tt] is
    Python's [None]. *)
Definition topsis (input_file weights impacts output_file : string) (w : world F)
  : outcome unit * world F :=
  match fs w !! input_file with
  | None => (Returned tt, print (msg_not_found input_file) w)
  | Some (Unreadable e) => (Returned tt, print (msg_unreadable e) w)
  | Some (Csv df) =>
      if (length df <? 3)%nat then (Returned tt, print msg_columns w)
      else
        match astype_float (tl df) with
        | None => (Returned tt, print msg_numeric w)
        | Some data =>
            let weight_list := split_comma weights in
            let impact_list := split_comma impacts in
            if (negb (length weight_list =? length data)%nat
                || negb (length impact_list =? length data)%nat)%bool
            then (Returned tt, print msg_count w)
            else
              match all_some float_of_string weight_list with
              | None => (Returned tt, print msg_weights w)
              | Some ws =>
                  if negb (forallb valid_impact impact_list)
                  then (Returned tt, print msg_impacts w)
                  else score_and_save df data ws impact_list output_file w
              end
        end
  end.

(** The [__main__] block, on [sys.argv]. *)
Definition main (argv : list string) (w : world F) : outcome unit * world F :=
  match argv with
  | [_; input_file; weights; impacts; output_file] =>
      topsis input_file weights impacts output_file w
  | _ => (Returned tt, print msg_usage w)
  end.

End Program.

(** ** Running the program on binary64 *)

(** The table of the end-to-end example. *)
Definition table_AB : DataFrame float :=
  [("Name", [CStr "A"; CStr "B"]);
   ("C1", [CInt 250; CInt 200]);
   ("C2", [CInt 16; CInt 20]);
   ("C3", [CInt 12; CInt 8])].

Definition world_AB : world float := World (<["data.csv" := Csv table_AB]> ∅) [].

(** An all-zero criterion column. *)
Definition table_zero_column : DataFrame float :=
  [("Name", [CStr "A"; CStr "B"]);
   ("C1", [CInt 0; CInt 0]);
   ("C2", [CInt 16; CInt 20]);
   ("C3", [CInt 12; CInt 8])].

(** A single alternative: it is its own ideal best and ideal worst. *)
Definition table_single_row : DataFrame float :=
  [("Name", [CStr "A"]); ("C1", [CInt 1]); ("C2", [CInt 16])].

(** An input that already has a column called [Rank]. *)
Definition table_with_rank : DataFrame float :=
  [("Name", [CStr "A"; CStr "B"]);
   ("Price", [CInt 250; CInt 200]);
   ("Rank", [CInt 7; CInt 9])].

(** Three alternatives with the same criterion values. *)
Definition table_three_equal : DataFrame float :=
  [("Name", [CStr "A"; CStr "B"; CStr "C"; CStr "D"]);
   ("C1", [CInt 2; CInt 2; CInt 2; CInt 1]);
   ("C2", [CInt 5; CInt 5; CInt 5; CInt 4])].

(** Two alternatives, each the better one on one criterion. *)
Definition table_small : DataFrame float :=
  [("Name", [CStr "A"; CStr "B"]); ("C1", [CInt 1; CInt 2]); ("C2", [CInt 2; CInt 1])].

(** A table with an empty cell, which [pd.read_csv] reads as NaN. *)
Definition table_missing_cell : DataFrame float :=
  [("Name", [CStr "A"; CStr "B"; CStr "C"]);
   ("C1", [CFloat 3; CFloat PrimFloat.nan; CFloat 4]%float);
   ("C2", [CInt 1; CInt 2; CInt 3])].

Definition world_with (df : DataFrame float) : world float :=
  World (<["data.csv" := Csv df]> ∅) [].

(** ** The pipeline, entry by entry *)

(** The value that each step of [topsis_scores] leaves at row [i] and column
    [j] when no missing value is met on the way. *)
Section Entries.
Context {F : Type} `{Arith F}.
Variables (n m : nat) (data : list (list F)) (ws : list F) (impacts : list string).

Definition plain_sum (l : list F) : F := fold_left fadd l fzero.

Definition plain_max (l : list F) : F :=
  match l with
  | [] => fnan
  | x :: r => fold_left fmax r x
  end.

Definition plain_min (l : list F) : F :=
  match l with
  | [] => fnan
  | x :: r => fold_left fmin r x
  end.

(** [raw[i][j]]: row [i] of criterion column [j]. *)
Definition raw (i j : nat) : F := nth i (nth j data []) fzero.

Definition entry_norm (j : nat) : F :=
  fsqrt (np_sum (map (fun i => square (raw i j)) (seq 0 n))).

Definition entry_weighted (i j : nat) : F :=
  fmul (fdiv (raw i j) (entry_norm j)) (nth j ws fzero).

Definition entry_column (j : nat) : list F :=
  map (fun i => entry_weighted i j) (seq 0 n).

Definition entry_best (j : nat) : F :=
  if String.eqb (nth j impacts "") "-" then plain_min (entry_column j)
  else plain_max (entry_column j).

Definition entry_worst (j : nat) : F :=
  if String.eqb (nth j impacts "") "-" then plain_max (entry_column j)
  else plain_min (entry_column j).

Definition entry_d_best (i : nat) : F :=
  fsqrt (plain_sum (map (fun j => square (fsub (entry_weighted i j) (entry_best j)))
                        (seq 0 m))).

Definition entry_d_worst (i : nat) : F :=
  fsqrt (plain_sum (map (fun j => square (fsub (entry_weighted i j) (entry_worst j)))
                        (seq 0 m))).

Definition entry_score (i : nat) : F :=
  fdiv (entry_d_worst i) (fadd (entry_d_best i) (entry_d_worst i)).

Definition entry_scores : list F := map entry_score (seq 0 n).

End Entries.

(** ** The formulas of the specification *)

(** The five steps as the specification words them.  They speak of sums and
    of the maximum and minimum of a column and not of the way of computing
    them, so a sum is here any floating-point sum of the listed terms: the
    terms added up in some order and grouping, zeros added at will.  A
    maximum is a member of the column that no member exceeds. *)
Section Formula.
Context {F : Type} `{Arith F}.

Inductive sums : list F -> F -> Prop :=
| sums_nil : sums [] fzero
| sums_one x : sums [x] x
| sums_add l1 l2 a b : sums l1 a -> sums l2 b -> sums (l1 ++ l2)%list (fadd a b)
| sums_perm l1 l2 a : Permutation l1 l2 -> sums l1 a -> sums l2 a.

Definition is_max (b : F) (l : list F) : Prop :=
  In b l /\ Forall (fun x => fltb b x = false) l.

Definition is_min (b : F) (l : list F) : Prop :=
  In b l /\ Forall (fun x => fltb x b = false) l.

Variables (n m : nat) (data : list (list F)) (ws : list F) (impacts : list string).

(** [raw[i][j]], the cell of alternative [i] under criterion [j], and
    [weighted[i][j]] for the column norms [nrm]. *)
Definition raw_value (i j : nat) : F := nth i (nth j data []) fzero.

Definition weighted_value (nrm : nat -> F) (i j : nat) : F :=
  fmul (fdiv (raw_value i j) (nrm j)) (nth j ws fzero).

Definition squared (x : F) : F := fmul x x.

(** [nrm j] is the norm of column [j], [best] and [worst] are the two ideal
    vectors, [d_best] and [d_worst] the distances of the rows and [score]
    their closeness. *)
Record formulas (nrm best worst d_best d_worst score : nat -> F) : Prop := {
  f_norm : forall j, (j < m)%nat ->
    exists s,
      sums (map (fun i => squared (raw_value i j)) (seq 0 n)) s /\ nrm j = fsqrt s;
  f_ideal : forall j, (j < m)%nat -> (0 < n)%nat ->
    let col := map (fun i => weighted_value nrm i j) (seq 0 n) in
    (nth j impacts "" = "+" -> is_max (best j) col /\ is_min (worst j) col)
    /\ (nth j impacts "" = "-" -> is_min (best j) col /\ is_max (worst j) col);
  f_d_best : forall i, (i < n)%nat ->
    exists s,
      sums (map (fun j => squared (fsub (weighted_value nrm i j) (best j))) (seq 0 m)) s
      /\ d_best i = fsqrt s;
  f_d_worst : forall i, (i < n)%nat ->
    exists s,
      sums (map (fun j => squared (fsub (weighted_value nrm i j) (worst j))) (seq 0 m)) s
      /\ d_worst i = fsqrt s;
  f_score : forall i, (i < n)%nat ->
    score i = fdiv (d_worst i) (fadd (d_best i) (d_worst i))
}.

End Formula.

(** ** Validation, as a property of the input *)

Section Validation.
Context {F : Type} `{Arith F}.
Variables (w : world F) (input_file weights impacts : string).

(** All seven checks pass; [df], [data] and [ws] are the table, its
    criterion columns as floats, and the parsed weights. *)
Record validated (df : DataFrame F) (data : list (list F)) (ws : list F) : Prop := {
  v_file : fs w !! input_file = Some (Csv df);
  v_columns : (3 <= length df)%nat;
  v_numeric : astype_float (tl df) = Some data;
  v_weight_count : length (split_comma weights) = length data;
  v_impact_count : length (split_comma impacts) = length data;
  v_weights : all_some float_of_string (split_comma weights) = Some ws;
  v_impacts : Forall (fun imp => imp = "+" \/ imp = "-") (split_comma impacts)
}.

(** The seven ways of failing. *)
Inductive invalid : Prop :=
| missing_file :
    fs w !! input_file = None -> invalid
| unreadable_table e :
    fs w !! input_file = Some (Unreadable e) -> invalid
| too_few_columns df :
    fs w !! input_file = Some (Csv df) -> (length df < 3)%nat -> invalid
| non_numeric_cell df name col c :
    fs w !! input_file = Some (Csv df) ->
    In (name, col) (tl df) -> In c col -> cell_to_float c = None -> invalid
| weight_count_mismatch df :
    fs w !! input_file = Some (Csv df) ->
    length (split_comma weights) <> length (tl df) -> invalid
| impact_count_mismatch df :
    fs w !! input_file = Some (Csv df) ->
    length (split_comma impacts) <> length (tl df) -> invalid
| non_numeric_weight tok :
    In tok (split_comma weights) -> float_of_string tok = None -> invalid
| invalid_impact tok :
    In tok (split_comma impacts) -> tok <> "+" -> tok <> "-" -> invalid.

End Validation.

(** The error lines of [topsis]. *)
Definition error_line (line : string) : Prop :=
  (exists f, line = msg_not_found f) \/ (exists e, line = msg_unreadable e) \/
  In line [msg_columns; msg_numeric; msg_count; msg_weights; msg_impacts].

(** ** The web service *)

(** [os.path.join(a, b)] on POSIX paths: an absolute [b] replaces [a]. *)
Definition is_absolute (p : string) : bool :=
  match p with
  | String "/" _ => true
  | _ => false
  end.

Fixpoint ends_with_slash (p : string) : bool :=
  match p with
  | EmptyString => false
  | String c EmptyString => Ascii.eqb c "/"
  | String _ r => ends_with_slash r
  end.

Definition path_join (a b : string) : string :=
  if is_absolute b then b
  else if (String.eqb a "" || ends_with_slash a)%bool then a ++ b
  else a ++ "/" ++ b.

Definition UPLOAD_FOLDER : string := "uploads".
Definition RESULT_FOLDER : string := "results".

(** An uploaded file: the name the client gave and the content. *)
Record upload (F : Type) := Upload {
  filename : string;
  content : file F
}.
Arguments Upload {F} filename content.
Arguments filename {F} u.
Arguments content {F} u.

(** The parts of the POST request that the view reads; [None] is a missing
    field ([.get] returns [None]). *)
Record request (F : Type) := Request {
  req_file : option (upload F);
  req_weights : option string;
  req_impacts : option string
}.
Arguments Request {F} req_file req_weights req_impacts.
Arguments req_file {F} r.
Arguments req_weights {F} r.
Arguments req_impacts {F} r.

(** What the view returns: a body with a status code, or the file sent as
    an attachment with status 200. *)
Inductive response (F : Type) :=
| Text (status : nat) (body : string)
| SendFile (path : string) (sent : file F).
Arguments Text {F} status body.
Arguments SendFile {F} path sent.

(** The view returns a response, or [send_file] raises [FileNotFoundError]
    for a path that does not exist, which the view does not catch. *)
Inductive view_outcome (F : Type) :=
| Responded (r : response F)
| FileNotFound (path : string).
Arguments Responded {F} r.
Arguments FileNotFound {F} path.

(** [file.save(path)]; the write is taken to succeed. *)
Definition save {F} (path : string) (c : file F) (w : world F) : world F :=
  World (<[path := c]> (fs w)) (stdout w).

(** Python's truth value of the three fields: an upload without a file name
    and an empty string count as missing. *)
Definition given_file {F} (f : option (upload F)) : option (upload F) :=
  match f with
  | Some u => if String.eqb (filename u) "" then None else Some u
  | None => None
  end.

Definition given_text (s : option string) : option string :=
  match s with
  | Some t => if String.eqb t "" then None else Some t
  | None => None
  end.

Definition exn_message (e : exn) : string :=
  match e with
  | ValueError msg => msg
  end.

Definition msg_required : string := "File, weights and impacts are required".
Definition msg_counts_differ : string := "Number of weights must equal number of impacts".
Definition msg_bad_impact : string := "Impacts must be + or -".
Definition msg_run_error (e : exn) : string := "Error running TOPSIS: " ++ exn_message e.

Section Service.
Context {F : Type}.

(** [topsis_run] comes from the installed package [topsis_himani], which is
    not part of these sources: the view is modelled for any function of that
    signature. *)
Variable topsis_run : string -> string -> string -> string -> world F -> outcome unit * world F.

Definition upload_path (u : upload F) : string := path_join UPLOAD_FOLDER (filename u).

Definition result_path (u : upload F) : string :=
  path_join RESULT_FOLDER ("result_" ++ filename u).

(** The view [topsis_service] of [app.py]. *)
Definition topsis_service (req : request F) (w : world F) : view_outcome F * world F :=
  match given_file (req_file req), given_text (req_weights req), given_text (req_impacts req) with
  | Some file, Some weights, Some impacts =>
      let weights_list := split_comma weights in
      let impacts_list := split_comma impacts in
      if negb (length weights_list =? length impacts_list)%nat
      then (Responded (Text 400 msg_counts_differ), w)
      else if negb (forallb valid_impact impacts_list)
      then (Responded (Text 400 msg_bad_impact), w)
      else
        let input_path := upload_path file in
        let w1 := save input_path (content file) w in
        let output_path := result_path file in
        match topsis_run input_path weights impacts output_path w1 with
        | (Raised e, w2) => (Responded (Text 500 (msg_run_error e)), w2)
        | (Returned _, w2) =>
            match fs w2 !! output_path with
            | Some c => (Responded (SendFile output_path c), w2)
            | None => (FileNotFound output_path, w2)
            end
        end
  | _, _, _ => (Responded (Text 400 msg_required), w)
  end.

End Service.

(** The requests that the view answers with status 400, and those it
    passes on to [topsis_run]. *)
Definition bad_request {F} (req : request F) : Prop :=
  given_file (req_file req) = None
  \/ given_text (req_weights req) = None
  \/ given_text (req_impacts req) = None
  \/ exists weights impacts,
      given_text (req_weights req) = Some weights
      /\ given_text (req_impacts req) = Some impacts
      /\ (length (split_comma weights) <> length (split_comma impacts)
          \/ exists tok, In tok (split_comma impacts) /\ tok <> "+" /\ tok <> "-").

Definition accepted {F} (req : request F) (u : upload F) (weights impacts : string) : Prop :=
  given_file (req_file req) = Some u
  /\ given_text (req_weights req) = Some weights
  /\ given_text (req_impacts req) = Some impacts
  /\ length (split_comma weights) = length (split_comma impacts)
  /\ Forall (fun imp => imp = "+" \/ imp = "-") (split_comma impacts).

(** ** Order on scores *)

(** What the ranking uses of the order of the numbers: a greater value is
    not an equal one, and greater-than runs through chains of greater and of
    equal values. *)
Class Ordered (F : Type) `{Arith F} : Prop := {
  ltb_not_eqb : forall x y : F, fltb x y = true -> feqb y x = false;
  ltb_trans : forall x y z : F, fltb x y = true -> fltb y z = true -> fltb x z = true;
  ltb_eqb_trans : forall x y z : F, fltb x y = true -> feqb z y = true -> fltb x z = true
}.

(** What the extrema use besides: of two present values that are not equal
    one is the greater, and equal values compare alike. *)
Class Linear (F : Type) `{Ordered F} : Prop := {
  ltb_total : forall x y : F,
    notna x = true -> notna y = true -> fltb x y = false ->
    fltb y x = true \/ feqb x y = true;
  eqb_ltb_trans : forall x y z : F, feqb x y = true -> fltb x z = true -> fltb y z = true
}.

(** The opposite direction of an impact. *)
Definition flip_impact (imp : string) : string :=
  if String.eqb imp "+" then "-" else "+".

(** The number of occurrences of a character. *)
Fixpoint count_char (c : ascii) (s : string) : nat :=
  match s with
  | EmptyString => 0%nat
  | String a r => ((if Ascii.eqb a c then 1 else 0) + count_char c r)%nat
  end.

(** * Properties *)

Example float64_of_string_samples :
  map float64_of_string
      ["1"; "-2.5"; "0.1"; "1e200"; "3e-5"; ".5"; "7."; "4.9e-324"; "1e400";
       "9007199254740993"; "nan"; "-Inf"; " 2 "; "1_000.5"; "1E1_0"]
  = map Some [1; -2.5; 0.1; 1e200; 3e-5; 0.5; 7; 4.9e-324; infinity;
              9007199254740992; nan; neg_infinity; 2; 1000.5; 1e10]%float.
Proof. vm_compute. reflexivity. Qed.

Example float64_of_string_rejects :
  map float64_of_string
      [""; "abc"; "1,"; "+"; "."; "1e"; "--1"; "*"; "_1"; "1_"; "1__0"; "1 0"; "1_.5"]
  = repeat None 13.
Proof. vm_compute. reflexivity. Qed.


(** ** Conversions that can fail *)

Lemma all_some_length {A B} (f : A -> option B) l bs :
  all_some f l = Some bs -> length bs = length l.
Proof.
  revert bs; induction l as [|a l IH]; intros bs; simpl.
  - intros [= <-]; reflexivity.
  - destruct (f a); [|discriminate].
    destruct (all_some f l); [|discriminate].
    intros [= <-]; simpl; f_equal; auto.
Qed.

Lemma all_some_None {A B} (f : A -> option B) l :
  all_some f l = None <-> exists a, In a l /\ f a = None.
Proof.
  induction l as [|a l IH]; simpl.
  - split; [discriminate | intros (? & [] & _)].
  - destruct (f a) eqn:Ea.
    + destruct (all_some f l).
      * split; [discriminate|].
        intros (x & [->|Hx] & Hn); [congruence|].
        destruct IH as [_ IH]. discriminate IH; eauto.
      * split; [|reflexivity].
        intros _. destruct IH as [IH _].
        destruct (IH eq_refl) as (x & Hx & Hn); eauto.
    + split; [eauto | reflexivity].
Qed.

Lemma all_some_Some {A B} (f : A -> option B) l bs :
  all_some f l = Some bs -> Forall2 (fun a b => f a = Some b) l bs.
Proof.
  revert bs; induction l as [|a l IH]; intros bs; simpl.
  - intros [= <-]; constructor.
  - destruct (f a) eqn:Ea; [|discriminate].
    destruct (all_some f l); [|discriminate].
    intros [= <-]; constructor; auto.
Qed.

Lemma all_some_map_Some {A B} (f : A -> B) l :
  all_some (fun a => Some (f a)) l = Some (map f l).
Proof. induction l as [|a l IH]; simpl; [|rewrite IH]; reflexivity. Qed.

Lemma valid_impact_iff imp : valid_impact imp = true <-> imp = "+" \/ imp = "-".
Proof.
  unfold valid_impact; simpl.
  rewrite !orb_true_iff, !String.eqb_eq. intuition discriminate.
Qed.

Lemma valid_impacts_iff l :
  forallb valid_impact l = true <-> Forall (fun imp => imp = "+" \/ imp = "-") l.
Proof.
  rewrite forallb_forall, List.Forall_forall.
  split; intros Hl x Hx; apply valid_impact_iff; auto.
Qed.

Section ValidationFacts.
Context {F : Type} `{Arith F}.

Lemma astype_float_None (data : DataFrame F) name col c :
  In (name, col) data -> In c col -> cell_to_float c = None ->
  astype_float data = None.
Proof.
  intros Hcol Hc Hn. apply all_some_None.
  exists (name, col); split; [assumption|].
  apply all_some_None; eauto.
Qed.

Lemma astype_float_length (data : DataFrame F) cols :
  astype_float data = Some cols -> length cols = length data.
Proof. apply all_some_length. Qed.

(** ** The validation branches of [topsis] *)

(** Past the seven checks the call is the numerical part. *)
Lemma topsis_validated w input_file weights impacts output_file df data ws :
  validated w input_file weights impacts df data ws ->
  topsis input_file weights impacts output_file w
  = score_and_save df data ws (split_comma impacts) output_file w.
Proof.
  intros [Hf Hc Hd Hwc Hic Hw Hi]. unfold topsis.
  rewrite Hf.
  destruct (Nat.ltb_spec (length df) 3) as [Hlt|_]; [lia|].
  rewrite Hd, Hwc, Hic, Nat.eqb_refl. simpl.
  rewrite Hw.
  apply valid_impacts_iff in Hi. rewrite Hi. reflexivity.
Qed.

(** An input that fails a check gets one error line and nothing else. *)
Lemma topsis_invalid w input_file weights impacts output_file :
  invalid w input_file weights impacts ->
  exists line, error_line line /\
    topsis input_file weights impacts output_file w = (Returned tt, print line w).
Proof.
  intros Hbad. unfold topsis.
  destruct (fs w !! input_file) as [[df|e]|] eqn:Hf.
  2:{ exists (msg_unreadable e); split; [right; left; eauto | reflexivity]. }
  2:{ exists (msg_not_found input_file); split; [left; eauto | reflexivity]. }
  destruct (Nat.ltb_spec (length df) 3) as [Hlt|Hge].
  { exists msg_columns; split; [right; right; simpl; auto | reflexivity]. }
  destruct (astype_float (tl df)) as [data|] eqn:Hd.
  2:{ exists msg_numeric; split; [right; right; simpl; auto | reflexivity]. }
  pose proof (astype_float_length _ _ Hd) as Hlen.
  destruct (negb (length (split_comma weights) =? length data)%nat
            || negb (length (split_comma impacts) =? length data)%nat)%bool eqn:Hcnt.
  { exists msg_count; split; [right; right; simpl; auto | reflexivity]. }
  apply orb_false_iff in Hcnt as [Hwc Hic].
  apply negb_false_iff, Nat.eqb_eq in Hwc, Hic.
  destruct (all_some float_of_string (split_comma weights)) as [ws|] eqn:Hw.
  2:{ exists msg_weights; split; [right; right; simpl; auto | reflexivity]. }
  destruct (forallb valid_impact (split_comma impacts)) eqn:Hi; simpl.
  2:{ exists msg_impacts; split; [right; right; simpl; auto 6 | reflexivity]. }
  exfalso.
  destruct Hbad as [Hm|e Hm|df' Hm Hc|df' name col c Hm Hcol Hc Hn|df' Hm Hc|df' Hm Hc
                   |tok Ht Hn|tok Ht Hp Hq]; try congruence.
  - assert (df' = df) as -> by congruence. lia.
  - assert (df' = df) as -> by congruence.
    rewrite (astype_float_None _ _ _ _ Hcol Hc Hn) in Hd. discriminate.
  - assert (all_some float_of_string (split_comma weights) = None)
      by (apply all_some_None; eauto).
    congruence.
  - apply valid_impacts_iff in Hi.
    rewrite List.Forall_forall in Hi. destruct (Hi _ Ht); contradiction.
Qed.

(** The two cases are exhaustive. *)
Lemma validated_or_invalid w input_file weights impacts :
  invalid w input_file weights impacts \/
  exists df data ws, validated w input_file weights impacts df data ws.
Proof.
  destruct (fs w !! input_file) as [[df|e]|] eqn:Hf.
  2:{ left; eapply unreadable_table; eauto. }
  2:{ left; apply missing_file; auto. }
  destruct (Nat.ltb_spec (length df) 3) as [Hlt|Hge].
  { left; eapply too_few_columns; eauto. }
  destruct (astype_float (tl df)) as [data|] eqn:Hd.
  2:{ apply all_some_None in Hd as ([name col] & Hcol & Hd).
      apply all_some_None in Hd as (c & Hc & Hn).
      left; eapply non_numeric_cell; eauto. }
  pose proof (astype_float_length _ _ Hd) as Hlen.
  destruct (Nat.eq_dec (length (split_comma weights)) (length data)) as [Hwc|Hwc].
  2:{ left; eapply weight_count_mismatch; eauto. congruence. }
  destruct (Nat.eq_dec (length (split_comma impacts)) (length data)) as [Hic|Hic].
  2:{ left; eapply impact_count_mismatch; eauto. congruence. }
  destruct (all_some float_of_string (split_comma weights)) as [ws|] eqn:Hw.
  2:{ apply all_some_None in Hw as (tok & Ht & Hn).
      left; eapply non_numeric_weight; eauto. }
  destruct (forallb valid_impact (split_comma impacts)) eqn:Hi.
  - right. exists df, data, ws. constructor; auto.
    apply valid_impacts_iff; assumption.
  - left.
    assert (exists tok, In tok (split_comma impacts) /\ valid_impact tok = false)
      as (tok & Ht & Hv).
    { clear -Hi. induction (split_comma impacts) as [|a l IH]; simpl in *; [discriminate|].
      destruct (valid_impact a) eqn:Ha; [|eauto].
      destruct (IH Hi) as (tok & ? & ?); eauto. }
    eapply invalid_impact; eauto; intros ->; discriminate.
Qed.

End ValidationFacts.

(** ** Ranks *)

Section RankFacts.
Context {F : Type} `{Arith F}.

Lemma notna_isna (x : F) : notna x = true <-> isna x = false.
Proof. unfold notna. apply negb_true_iff. Qed.

Lemma notna_feqb (x : F) : notna x = true <-> feqb x x = true.
Proof. unfold notna, isna. rewrite negb_involutive. reflexivity. Qed.

(** With no missing score the conversion to [int] goes through. *)
Lemma astype_int_rank_Some (s : list F) :
  Forall (fun x => notna x = true) s ->
  astype_int (rank_descending s) = Some (int_ranks s).
Proof.
  unfold astype_int, rank_descending.
  assert (forall (pos : F -> Q) l,
             Forall (fun x => notna x = true) l ->
             all_some (option_map qtrunc)
                      (map (fun x => if isna x then None else Some (pos x)) l)
             = Some (map (fun x => qtrunc (pos x)) l)) as Hgen.
  { intros pos l Hl. induction Hl as [|x l Hx Hl IH]; simpl; [reflexivity|].
    apply notna_isna in Hx. rewrite Hx. simpl. rewrite IH. reflexivity. }
  intros Hs. apply (Hgen (fun x => average_position (count_greater x s) (count_equal x s))).
  assumption.
Qed.

(** A missing score makes it raise. *)
Lemma astype_int_rank_None (s : list F) :
  (exists x, In x s /\ isna x = true) ->
  astype_int (rank_descending s) = None.
Proof.
  intros (x & Hx & Hn). apply all_some_None.
  exists None; split; [|reflexivity].
  unfold rank_descending. apply in_map_iff.
  exists x; split; [|assumption]. rewrite Hn; reflexivity.
Qed.

Lemma all_notna_or_some_isna (s : list F) :
  Forall (fun x => notna x = true) s \/ exists x, In x s /\ isna x = true.
Proof.
  induction s as [|x s [IH|(y & Hy & Hn)]]; [left; constructor| |right; exists y; simpl; auto].
  destruct (isna x) eqn:Hx.
  - right; exists x; simpl; auto.
  - left; constructor; [apply notna_isna|]; assumption.
Qed.

(** The mean of the positions [g+1 .. g+t], cut to an integer. *)
Lemma sum_positions (g t : nat) :
  2 * fold_right Z.add 0 (map (fun k => Z.of_nat (g + k)) (seq 1 t))
  = Z.of_nat t * (2 * Z.of_nat g + Z.of_nat t + 1).
Proof.
  assert (forall a, 2 * fold_right Z.add 0 (map (fun k => Z.of_nat (g + k)) (seq a t))
                    = Z.of_nat t * (2 * Z.of_nat g + 2 * Z.of_nat a + Z.of_nat t - 1)) as Hgen.
  { induction t as [|t IH]; intros a; [simpl; lia|].
    cbn [seq map fold_right]. rewrite Z.mul_add_distr_l, IH. lia. }
  rewrite Hgen. lia.
Qed.

Lemma qtrunc_average_position (g t : nat) :
  (0 < t)%nat ->
  qtrunc (average_position g t) = Z.of_nat g + (Z.of_nat t + 1) / 2.
Proof.
  intros Ht. unfold qtrunc, average_position.
  pose proof (sum_positions g t) as Hsum.
  set (sigma := fold_right Z.add 0 (map (fun k => Z.of_nat (g + k)) (seq 1 t))) in *.
  destruct t as [|t]; [lia|].
  assert (Qdiv (inject_Z sigma) (inject_Z (Z.of_nat (S t)))
          = Qmake (sigma * 1) (1 * Pos.of_succ_nat t)) as ->.
  { unfold Qdiv, Qinv, inject_Z, Qmult. simpl. reflexivity. }
  cbn [Qnum Qden]. rewrite Z.mul_1_r, Pos.mul_1_l.
  replace (Z.pos (Pos.of_succ_nat t)) with (Z.of_nat (S t)) by lia.
  assert (0 <= sigma) by nia.
  rewrite Z.quot_div_nonneg by lia.
  set (n := Z.of_nat (S t)) in *. set (k := Z.of_nat g) in *.
  assert (0 < n) by lia. assert (0 <= k) by lia.
  pose proof (Z.div_mod (n + 1) 2 ltac:(lia)) as Hdm.
  pose proof (Z.mod_pos_bound (n + 1) 2 ltac:(lia)) as Hb.
  symmetry. apply Z.div_unique with (r := sigma - n * (k + (n + 1) / 2)); nia.
Qed.

End RankFacts.

(** ** Shapes *)

Section ShapeFacts.
Context {F : Type} `{Arith F}.

Lemma length_row_nansum n (cols : list (list F)) :
  Forall (fun col => length col = n) cols -> length (row_nansum n cols) = n.
Proof.
  unfold row_nansum. intros Hcols.
  assert (length (repeat fzero n) = n) as Hacc by apply repeat_length.
  revert Hacc. generalize (repeat fzero n).
  induction Hcols as [|col cols Hcol _ IH]; intros acc Hacc; simpl; [assumption|].
  apply IH. rewrite length_zip_with, length_map. lia.
Qed.

Lemma Forall_length_normalize n (data : list (list F)) :
  Forall (fun col => length col = n) data ->
  Forall (fun col => length col = n) (normalize data).
Proof.
  unfold normalize. intros Hd. apply List.Forall_map.
  eapply List.Forall_impl; [|exact Hd]. intros col Hc. simpl. rewrite length_map; exact Hc.
Qed.

Lemma Forall_length_zip_with_map {B} n (g : F -> B -> F) (cols : list (list F)) (bs : list B) :
  Forall (fun col => length col = n) cols ->
  Forall (fun col => length col = n) (zip_with (fun col b => map (fun x => g x b) col) cols bs).
Proof.
  intros Hc. revert bs. induction Hc as [|col cols Hcol _ IH]; intros [|b bs]; simpl;
    constructor; [rewrite length_map; assumption | apply IH].
Qed.

Lemma length_distance n (weighted : list (list F)) ideal :
  Forall (fun col => length col = n) weighted ->
  length (distance n weighted ideal) = n.
Proof.
  intros Hw. unfold distance, deviations. rewrite length_map.
  apply length_row_nansum.
  apply (Forall_length_zip_with_map n (fun x b => square (fsub x b))), Hw.
Qed.

Lemma length_topsis_scores n (data : list (list F)) ws impacts :
  Forall (fun col => length col = n) data ->
  length (topsis_scores n data ws impacts) = n.
Proof.
  intros Hd. unfold topsis_scores, closeness.
  assert (Forall (fun col => length col = n) (apply_weights (normalize data) ws)) as Hw.
  { unfold apply_weights.
    apply (Forall_length_zip_with_map n (fun x w => fmul x w)), Forall_length_normalize, Hd. }
  rewrite length_zip_with, !length_distance by assumption. lia.
Qed.

(** The criterion columns of a rectangular table keep its row count. *)
Lemma astype_float_rows (df : DataFrame F) data :
  rectangular df -> astype_float (tl df) = Some data ->
  Forall (fun col => length col = nrows df) data.
Proof.
  unfold rectangular, astype_float. intros Hr Hd.
  assert (Forall (fun c => length (snd c) = nrows df) (tl df)) as Ht.
  { destruct df; [constructor|]. inversion Hr; assumption. }
  clear Hr. revert data Hd.
  induction Ht as [|c cs Hc _ IH]; intros data; simpl.
  - intros [= <-]; constructor.
  - destruct (all_some cell_to_float (snd c)) as [col|] eqn:Ec; [|discriminate].
    destruct (all_some _ cs) as [cols|]; [|discriminate].
    intros [= <-]. constructor; [|apply IH; reflexivity].
    rewrite (all_some_length _ _ _ Ec). exact Hc.
Qed.

Lemma has_column_false_iff name (df : DataFrame F) :
  has_column name df = false <-> ~ In name (map fst df).
Proof.
  unfold has_column. induction df as [|c df IH]; simpl; [tauto|].
  rewrite orb_false_iff, IH, String.eqb_neq. tauto.
Qed.

Lemma set_column_absent name col (df : DataFrame F) :
  has_column name df = false -> set_column name col df = (df ++ [(name, col)])%list.
Proof. unfold set_column. intros ->. reflexivity. Qed.

Lemma set_column_present name col (df : DataFrame F) :
  has_column name df = true ->
  set_column name col df
  = map (fun c => if String.eqb (fst c) name then (name, col) else c) df.
Proof. unfold set_column. intros ->. reflexivity. Qed.

Lemma names_set_column_present name col (df : DataFrame F) :
  has_column name df = true -> map fst (set_column name col df) = map fst df.
Proof.
  intros Hp. rewrite set_column_present by assumption. rewrite map_map.
  apply map_ext. intros c. destruct (String.eqb_spec (fst c) name); simpl; congruence.
Qed.

Lemma length_set_column name col (df : DataFrame F) :
  length (set_column name col df)
  = if has_column name df then length df else S (length df).
Proof.
  unfold set_column. destruct (has_column name df).
  - apply length_map.
  - rewrite length_app. simpl. lia.
Qed.

Lemma has_column_names name (df df' : DataFrame F) :
  map fst df = map fst df' -> has_column name df = has_column name df'.
Proof.
  unfold has_column. revert df'.
  induction df as [|c df IH]; intros [|c' df']; simpl; try discriminate; [reflexivity|].
  intros [= Hc Hr]. rewrite Hc, (IH df' Hr). reflexivity.
Qed.

Lemma has_column_set_column_other name name' col (df : DataFrame F) :
  name' <> name ->
  has_column name (set_column name' col df) = has_column name df.
Proof.
  intros Hne. destruct (has_column name' df) eqn:Hp.
  - apply has_column_names, names_set_column_present, Hp.
  - rewrite set_column_absent by assumption.
    unfold has_column. rewrite existsb_app. simpl.
    apply String.eqb_neq in Hne. rewrite Hne. rewrite !orb_false_r. reflexivity.
Qed.

(** After [df[name] = col] every column called [name] holds [col]. *)
Lemma set_column_values name col (df : DataFrame F) c :
  In c (set_column name col df) -> fst c = name -> snd c = col.
Proof.
  unfold set_column. destruct (has_column name df) eqn:Hp.
  - rewrite in_map_iff. intros (c0 & <- & _).
    destruct (String.eqb_spec (fst c0) name); simpl; [reflexivity | contradiction].
  - rewrite in_app_iff. simpl. intros [Hin|[<-|[]]] Hn; [|reflexivity].
    exfalso. apply has_column_false_iff in Hp. apply Hp.
    rewrite <- Hn. apply in_map. assumption.
Qed.

(** The other columns are left as they were. *)
Lemma set_column_others name col (df : DataFrame F) c :
  In c (set_column name col df) -> fst c <> name -> In c df.
Proof.
  unfold set_column. destruct (has_column name df).
  - rewrite in_map_iff. intros (c0 & Hc & Hin).
    destruct (String.eqb_spec (fst c0) name); subst; simpl; [contradiction | auto].
  - rewrite in_app_iff. simpl. intros [Hin|[<-|[]]] Hn; [assumption | contradiction].
Qed.

End ShapeFacts.

(** ** The numerical part of the call *)

Section Outcome.
Context {F : Type} `{Arith F}.

Lemma score_and_save_ok df data ws impact_list output_file (w : world F) :
  Forall (fun x => notna x = true) (topsis_scores (nrows df) data ws impact_list) ->
  score_and_save df data ws impact_list output_file w
  = (Returned tt,
     print (msg_done output_file)
           (to_csv output_file
                   (result_table df (topsis_scores (nrows df) data ws impact_list)) w)).
Proof.
  intros Hs. unfold score_and_save.
  rewrite (astype_int_rank_Some _ Hs). reflexivity.
Qed.

Lemma score_and_save_raises df data ws impact_list output_file (w : world F) :
  (exists x, In x (topsis_scores (nrows df) data ws impact_list) /\ isna x = true) ->
  score_and_save df data ws impact_list output_file w
  = (Raised (ValueError msg_int_cast), w).
Proof.
  intros Hs. unfold score_and_save.
  rewrite (astype_int_rank_None _ Hs). reflexivity.
Qed.

(** Past validation there are two outcomes and no error line. *)
Lemma score_and_save_cases df data ws impact_list output_file (w : world F) :
  score_and_save df data ws impact_list output_file w
  = (Raised (ValueError msg_int_cast), w)
  \/ score_and_save df data ws impact_list output_file w
     = (Returned tt,
        print (msg_done output_file)
              (to_csv output_file
                      (result_table df (topsis_scores (nrows df) data ws impact_list)) w)).
Proof.
  destruct (all_notna_or_some_isna (topsis_scores (nrows df) data ws impact_list)).
  - right. apply score_and_save_ok; assumption.
  - left. apply score_and_save_raises; assumption.
Qed.

Lemma print_inj (a b : string) (w : world F) : print a w = print b w -> a = b.
Proof.
  unfold print. intros [= Heq]. apply app_inv_head in Heq. congruence.
Qed.

End Outcome.

(** Closes [Forall (fun imp => imp = "+" \/ imp = "-") l] on a literal list. *)
Ltac solve_impacts :=
  repeat first
    [ apply List.Forall_nil
    | apply List.Forall_cons; [first [left; reflexivity | right; reflexivity]|] ].

(** Closes [validated] on a literal input. *)
Ltac solve_validated :=
  constructor;
  first [ vm_compute; reflexivity | vm_compute; lia | vm_compute; solve_impacts ].

(** ** Validation failures *)

(** C8: an input that fails any of the validation checks makes the
    command-line call print exactly one line, an error line, and leave every
    file as it was; the call returns, and nothing is written to the output
    path. *)
Theorem cli_invalid_one_line_no_output {F : Type} `{Arith F}
        (w : world F) (prog input_file weights impacts output_file : string) :
  invalid w input_file weights impacts ->
  exists line,
    error_line line /\
    main [prog; input_file; weights; impacts; output_file] w
    = (Returned tt, World (fs w) (stdout w ++ [line])%list).
Proof.
  intros Hbad. simpl.
  destruct (topsis_invalid w input_file weights impacts output_file Hbad)
    as (line & Hline & Hrun).
  exists line. split; [assumption|]. rewrite Hrun. reflexivity.
Qed.

Lemma cli_invalid_one_line_no_output_witness :
  exists line,
    error_line line /\
    main ["topsis.py"; "data.csv"; "1,1"; "+,-,+"; "out.csv"] world_AB
    = (Returned tt, World (fs world_AB) (stdout world_AB ++ [line])%list).
Proof.
  apply (cli_invalid_one_line_no_output world_AB "topsis.py" "data.csv" "1,1" "+,-,+" "out.csv").
  apply (weight_count_mismatch world_AB "data.csv" "1,1" "+,-,+" table_AB).
  - vm_compute. reflexivity.
  - vm_compute. lia.
Defined.

(** C10: on a validation failure [topsis] raises nothing and returns [None]
    after printing one error line; [None] is also what a completed run
    returns ([score_and_save_ok]), so the return value does not tell the two
    apart. *)
Theorem topsis_invalid_returns_none {F : Type} `{Arith F}
        (w : world F) (input_file weights impacts output_file : string) :
  invalid w input_file weights impacts ->
  fst (topsis input_file weights impacts output_file w) = Returned tt
  /\ exists line,
      error_line line /\
      stdout (snd (topsis input_file weights impacts output_file w))
      = (stdout w ++ [line])%list.
Proof.
  intros Hbad.
  destruct (topsis_invalid w input_file weights impacts output_file Hbad)
    as (line & Hline & Hrun).
  rewrite Hrun. split; [reflexivity|]. exists line. split; [assumption | reflexivity].
Qed.

Lemma topsis_invalid_returns_none_witness :
  fst (topsis "data.csv" "1,1,1" "+,*,+" "out.csv" world_AB) = Returned tt
  /\ exists line,
      error_line line /\
      stdout (snd (topsis "data.csv" "1,1,1" "+,*,+" "out.csv" world_AB))
      = (stdout world_AB ++ [line])%list.
Proof.
  apply (topsis_invalid_returns_none world_AB "data.csv" "1,1,1" "+,*,+" "out.csv").
  apply (invalid_impact world_AB "data.csv" "1,1,1" "+,*,+" "*").
  - vm_compute. auto.
  - discriminate.
  - discriminate.
Defined.

(** The three rejections listed among the testable properties. *)
Example rejects_shape_mismatch :
  topsis "data.csv" "1,1" "+,-,+" "out.csv" world_AB
  = (Returned tt, print msg_count world_AB).
Proof. vm_compute. reflexivity. Qed.

Example rejects_star_impact :
  topsis "data.csv" "1,1,1" "+,*,+" "out.csv" world_AB
  = (Returned tt, print msg_impacts world_AB).
Proof. vm_compute. reflexivity. Qed.

Example rejects_text_cell :
  topsis "data.csv" "1,1" "+,-" "out.csv"
         (world_with [("Name", [CStr "A"]); ("C1", [CInt 1]); ("C2", [CStr "high"])])
  = (Returned tt,
     print msg_numeric
           (world_with [("Name", [CStr "A"]); ("C1", [CInt 1]); ("C2", [CStr "high"])])).
Proof. vm_compute. reflexivity. Qed.

(** ** Weights *)

(** C5, as the code has it: once the table and the two counts are accepted,
    the weight string is rejected, with the line [msg_weights], exactly when
    one of its tokens does not parse as a float.  The sign of a weight is
    never looked at, so zero and negative weights pass. *)
Theorem weights_rejected_iff_unparsable {F : Type} `{Arith F}
        (w : world F) (input_file weights impacts output_file : string)
        (df : DataFrame F) (data : list (list F)) :
  fs w !! input_file = Some (Csv df) ->
  (3 <= length df)%nat ->
  astype_float (tl df) = Some data ->
  length (split_comma weights) = length data ->
  length (split_comma impacts) = length data ->
  topsis input_file weights impacts output_file w = (Returned tt, print msg_weights w)
  <-> exists tok, In tok (split_comma weights) /\ float_of_string tok = None.
Proof.
  intros Hf Hc Hd Hwc Hic. unfold topsis. rewrite Hf.
  destruct (Nat.ltb_spec (length df) 3) as [Hlt|_]; [lia|].
  rewrite Hd, Hwc, Hic, Nat.eqb_refl. simpl.
  destruct (all_some float_of_string (split_comma weights)) as [ws|] eqn:Hw.
  - split.
    + intros Hrun. exfalso.
      destruct (forallb valid_impact (split_comma impacts)); simpl in Hrun.
      * destruct (score_and_save_cases df data ws (split_comma impacts) output_file w)
          as [Hr|Hr]; rewrite Hr in Hrun; [discriminate|].
        unfold print, to_csv in Hrun. simpl in Hrun.
        injection Hrun as _ Hrun. apply app_inv_head in Hrun. discriminate.
      * injection Hrun as Hrun. apply app_inv_head in Hrun. discriminate.
    + intros Hex. apply all_some_None in Hex. congruence.
  - split; [|reflexivity]. intros _. apply all_some_None. assumption.
Qed.

Lemma weights_rejected_iff_unparsable_witness :
  topsis "data.csv" "1,x,1" "+,-,+" "out.csv" world_AB
  = (Returned tt, print msg_weights world_AB)
  <-> exists tok, In tok (split_comma "1,x,1") /\ float64_of_string tok = None.
Proof.
  refine (weights_rejected_iff_unparsable world_AB "data.csv" "1,x,1" "+,-,+" "out.csv"
            table_AB [[250; 200]; [16; 20]; [12; 8]]%float _ _ _ _ _).
  - vm_compute. reflexivity.
  - vm_compute. lia.
  - vm_compute. reflexivity.
  - vm_compute. reflexivity.
  - vm_compute. reflexivity.
Defined.

(** C5, as stated, fails: the weights [1,-1,0] all parse, two of them are
    not positive, and the call completes and writes its output. *)
Lemma nonpositive_weights_accepted :
  all_some float64_of_string (split_comma "1,-1,0") = Some [1; -1; 0]%float
  /\ topsis "data.csv" "1,-1,0" "+,-,+" "out.csv" world_AB
     = (Returned tt,
        print (msg_done "out.csv")
              (to_csv "out.csv"
                      (table_AB ++ [("Topsis Score", [CFloat 0.5; CFloat 0.5]%float);
                                    ("Rank", [CInt 1; CInt 1])])%list
                      world_AB)).
Proof. split; vm_compute; reflexivity. Qed.

(** ** The stored table *)

Lemma names_result_table {F : Type} `{Arith F} (df : DataFrame F) score :
  exists extra, map fst (result_table df score) = (map fst df ++ extra)%list.
Proof.
  unfold result_table.
  assert (forall name col (d : DataFrame F),
             exists extra, map fst (set_column name col d) = (map fst d ++ extra)%list) as Hset.
  { intros name col d. destruct (has_column name d) eqn:Hp.
    - exists []. rewrite app_nil_r. apply names_set_column_present; assumption.
    - exists [name]. rewrite set_column_absent by assumption. rewrite map_app. reflexivity. }
  destruct (Hset "Topsis Score" (map CFloat score) df) as (e1 & H1).
  destruct (Hset "Rank" (map CInt (int_ranks score))
                 (set_column "Topsis Score" (map CFloat score) df)) as (e2 & H2).
  exists (e1 ++ e2)%list. rewrite H2, H1, app_assoc. reflexivity.
Qed.

(** C7, as the code has it: for a validated rectangular table that has no
    column called [Topsis Score] or [Rank], and whose scores are all present
    (none is NaN), the call stores the input table followed by exactly two
    columns, the scores and the ranks, each with one entry per input row. *)
Theorem output_is_input_plus_two_columns {F : Type} `{Arith F}
        (w : world F) (input_file weights impacts output_file : string)
        (df : DataFrame F) (data : list (list F)) (ws : list F) :
  validated w input_file weights impacts df data ws ->
  rectangular df ->
  has_column "Topsis Score" df = false ->
  has_column "Rank" df = false ->
  Forall (fun x => notna x = true)
         (topsis_scores (nrows df) data ws (split_comma impacts)) ->
  exists score ranks,
    topsis input_file weights impacts output_file w
    = (Returned tt,
       print (msg_done output_file)
             (to_csv output_file
                     (df ++ [("Topsis Score", map CFloat score); ("Rank", map CInt ranks)])%list
                     w))
    /\ length score = nrows df
    /\ length ranks = nrows df
    /\ length (df ++ [("Topsis Score", map CFloat score); ("Rank", map CInt ranks)])%list
       = (length df + 2)%nat.
Proof.
  intros Hv Hrect Hts Hrk Hs.
  set (score := topsis_scores (nrows df) data ws (split_comma impacts)) in *.
  exists score, (int_ranks score).
  rewrite (topsis_validated _ _ _ _ _ _ _ _ Hv).
  rewrite score_and_save_ok by exact Hs. fold score.
  assert (length score = nrows df) as Hlen.
  { apply length_topsis_scores, astype_float_rows; [assumption | apply Hv]. }
  repeat split.
  - unfold result_table.
    rewrite (set_column_absent "Topsis Score") by assumption.
    rewrite set_column_absent.
    + rewrite <- app_assoc. reflexivity.
    + unfold has_column in *. rewrite existsb_app, Hrk. reflexivity.
  - exact Hlen.
  - unfold int_ranks. rewrite length_map. exact Hlen.
  - rewrite length_app. reflexivity.
Qed.

Lemma output_is_input_plus_two_columns_witness :
  exists score ranks,
    topsis "data.csv" "1,1,1" "+,-,+" "out.csv" world_AB
    = (Returned tt,
       print (msg_done "out.csv")
             (to_csv "out.csv"
                     (table_AB ++ [("Topsis Score", map CFloat score); ("Rank", map CInt ranks)])%list
                     world_AB))
    /\ length score = nrows table_AB
    /\ length ranks = nrows table_AB
    /\ length (table_AB ++ [("Topsis Score", map CFloat score); ("Rank", map CInt ranks)])%list
       = (length table_AB + 2)%nat.
Proof.
  apply (output_is_input_plus_two_columns world_AB "data.csv" "1,1,1" "+,-,+" "out.csv"
           table_AB [[250; 200]; [16; 20]; [12; 8]]%float [1; 1; 1]%float).
  - solve_validated.
  - repeat constructor.
  - vm_compute. reflexivity.
  - vm_compute. reflexivity.
  - vm_compute. repeat constructor.
Defined.

(** The end-to-end example of the specification. *)
Example table_AB_result :
  topsis "data.csv" "1,1,1" "+,-,+" "out.csv" world_AB
  = (Returned tt,
     print (msg_done "out.csv")
           (to_csv "out.csv"
                   (table_AB ++ [("Topsis Score", [CFloat 1; CFloat 0]%float);
                                 ("Rank", [CInt 1; CInt 2])])%list
                   world_AB)).
Proof. vm_compute. reflexivity. Qed.

(** C7, as stated, fails: this valid input has a column called [Rank]; the
    stored table has one more column than the input, not two, and the
    values of the input's [Rank] column are gone. *)
Lemma existing_rank_column_is_replaced :
  topsis "data.csv" "1,1" "+,+" "out.csv" (world_with table_with_rank)
  = (Returned tt,
     print (msg_done "out.csv")
           (to_csv "out.csv"
                   [("Name", [CStr "A"; CStr "B"]);
                    ("Price", [CInt 250; CInt 200]);
                    ("Rank", [CInt 2; CInt 1]);
                    ("Topsis Score",
                     [CFloat 0.47099111728093646; CFloat 0.52900888271906354]%float)]
                   (world_with table_with_rank)))
  /\ length table_with_rank = 3%nat
  /\ In ("Rank", [CInt 7; CInt 9]) table_with_rank.
Proof. split; [vm_compute; reflexivity | split; [reflexivity | simpl; auto]]. Qed.

(** C9: when the validated table already has a column called [Topsis Score]
    or [Rank] (and the run completes), that column is overwritten where it
    stands: the stored table keeps the input's column names in their places,
    has fewer than two columns more than the input, and every column of
    either name holds the computed scores, respectively ranks, whatever the
    input had there. *)
Theorem existing_result_column_overwritten {F : Type} `{Arith F}
        (w : world F) (input_file weights impacts output_file : string)
        (df : DataFrame F) (data : list (list F)) (ws : list F) :
  validated w input_file weights impacts df data ws ->
  Forall (fun x => notna x = true)
         (topsis_scores (nrows df) data ws (split_comma impacts)) ->
  has_column "Topsis Score" df = true \/ has_column "Rank" df = true ->
  exists score out,
    score = topsis_scores (nrows df) data ws (split_comma impacts)
    /\ topsis input_file weights impacts output_file w
       = (Returned tt, print (msg_done output_file) (to_csv output_file out w))
    /\ (length out < length df + 2)%nat
    /\ (exists extra, map fst out = (map fst df ++ extra)%list)
    /\ (forall col, In ("Topsis Score", col) out -> col = map CFloat score)
    /\ (forall col, In ("Rank", col) out -> col = map CInt (int_ranks score)).
Proof.
  intros Hv Hs Hhas.
  set (score := topsis_scores (nrows df) data ws (split_comma impacts)) in *.
  exists score, (result_table df score).
  rewrite (topsis_validated _ _ _ _ _ _ _ _ Hv).
  rewrite score_and_save_ok by exact Hs. fold score.
  split; [reflexivity|]. split; [reflexivity|].
  split; [|split; [apply names_result_table|split]].
  - unfold result_table. rewrite !length_set_column.
    rewrite has_column_set_column_other by discriminate.
    destruct Hhas as [-> | ->]; destruct (has_column _ df); lia.
  - intros col Hin. unfold result_table in Hin.
    apply set_column_others in Hin; [|discriminate].
    apply (set_column_values _ _ _ _ Hin). reflexivity.
  - intros col Hin. unfold result_table in Hin.
    apply (set_column_values _ _ _ _ Hin). reflexivity.
Qed.

Lemma existing_result_column_overwritten_witness :
  exists score out,
    score = topsis_scores (nrows table_with_rank) [[250; 200]; [7; 9]]%float [1; 1]%float
                          (split_comma "+,+")
    /\ topsis "data.csv" "1,1" "+,+" "out.csv" (world_with table_with_rank)
       = (Returned tt,
          print (msg_done "out.csv") (to_csv "out.csv" out (world_with table_with_rank)))
    /\ (length out < length table_with_rank + 2)%nat
    /\ (exists extra, map fst out = (map fst table_with_rank ++ extra)%list)
    /\ (forall col, In ("Topsis Score", col) out -> col = map CFloat score)
    /\ (forall col, In ("Rank", col) out -> col = map CInt (int_ranks score)).
Proof.
  apply (existing_result_column_overwritten (world_with table_with_rank)
           "data.csv" "1,1" "+,+" "out.csv" table_with_rank
           [[250; 200]; [7; 9]]%float [1; 1]%float).
  - solve_validated.
  - vm_compute. repeat constructor.
  - right. vm_compute. reflexivity.
Defined.

(** ** Ranks of tied scores *)

Lemma count_equal_pos {F : Type} `{Arith F} (x : F) (s : list F) :
  In x s -> notna x = true -> (0 < count_equal x s)%nat.
Proof.
  intros Hin Hx. apply notna_feqb in Hx. unfold count_equal.
  assert (In x (List.filter (fun y => feqb y x) s)) as Hf
      by (apply filter_In; split; assumption).
  destruct (List.filter (fun y => feqb y x) s); [destruct Hf | simpl; lia].
Qed.

(** C1, as the code has it: with no missing score the rank column is
    computed, and the rank of a row is the number of strictly greater scores
    plus half the size of its tie group, rounded up: the mean of the group's
    positions, cut to an integer.  Rows with the same score get the same
    rank.  The rank is the competition rank, one plus the number of greater
    scores, exactly for groups of at most two rows. *)
Theorem rank_is_truncated_group_average {F : Type} `{Arith F} (s : list F) :
  Forall (fun x => notna x = true) s ->
  exists ranks,
    astype_int (rank_descending s) = Some ranks
    /\ ranks = map (fun x => Z.of_nat (count_greater x s)
                             + (Z.of_nat (count_equal x s) + 1) / 2) s
    /\ (forall i j x, s !! i = Some x -> s !! j = Some x -> ranks !! i = ranks !! j)
    /\ (forall i x r, s !! i = Some x -> ranks !! i = Some r ->
                      (r = competition_rank s x <-> (count_equal x s <= 2)%nat)).
Proof.
  intros Hs.
  set (rank_of := fun x => Z.of_nat (count_greater x s) + (Z.of_nat (count_equal x s) + 1) / 2).
  exists (map rank_of s).
  assert (int_ranks s = map rank_of s) as Hr.
  { unfold int_ranks. apply map_ext_in. intros x Hx.
    apply qtrunc_average_position, count_equal_pos; [assumption|].
    rewrite List.Forall_forall in Hs. auto. }
  split; [rewrite astype_int_rank_Some by assumption; congruence|].
  split; [reflexivity|]. split.
  - intros i j x Hi Hj. rewrite !list_lookup_fmap, Hi, Hj. reflexivity.
  - intros i x r Hi. rewrite list_lookup_fmap, Hi. simpl. intros [= <-].
    assert (0 < count_equal x s)%nat as Hpos.
    { apply count_equal_pos.
      - apply list_elem_of_In. eapply list_elem_of_lookup_2; eassumption.
      - rewrite List.Forall_forall in Hs. apply Hs.
        apply list_elem_of_In. eapply list_elem_of_lookup_2; eassumption. }
    unfold rank_of, competition_rank.
    set (t := Z.of_nat (count_equal x s)).
    assert (0 < t) by lia.
    pose proof (Z.div_mod (t + 1) 2 ltac:(lia)).
    pose proof (Z.mod_pos_bound (t + 1) 2 ltac:(lia)).
    split; intros; lia.
Qed.

Lemma rank_is_truncated_group_average_witness :
  exists ranks,
    astype_int (rank_descending [0.9; 0.9; 0.5]%float) = Some ranks
    /\ ranks = map (fun x => Z.of_nat (count_greater x [0.9; 0.9; 0.5]%float)
                             + (Z.of_nat (count_equal x [0.9; 0.9; 0.5]%float) + 1) / 2)
                   [0.9; 0.9; 0.5]%float
    /\ (forall i j x, [0.9; 0.9; 0.5]%float !! i = Some x ->
                      [0.9; 0.9; 0.5]%float !! j = Some x -> ranks !! i = ranks !! j)
    /\ (forall i x r, [0.9; 0.9; 0.5]%float !! i = Some x -> ranks !! i = Some r ->
                      (r = competition_rank [0.9; 0.9; 0.5]%float x
                       <-> (count_equal x [0.9; 0.9; 0.5]%float <= 2)%nat)).
Proof.
  apply (rank_is_truncated_group_average [0.9; 0.9; 0.5]%float).
  repeat constructor.
Defined.

(** The example of the specification: a tie of two. *)
Example ranks_of_pair_tie :
  astype_int (rank_descending [0.9; 0.9; 0.5]%float) = Some [1; 1; 3].
Proof. vm_compute. reflexivity. Qed.

(** C1, as stated, fails on a tie of three: all three rows at the top get
    rank 2, the truncated mean of the positions 1, 2 and 3, where
    competition ranking gives 1.  The same happens in a complete run. *)
Lemma three_way_tie_gets_rank_two :
  astype_int (rank_descending [0.9; 0.9; 0.9]%float) = Some [2; 2; 2]
  /\ map (competition_rank [0.9; 0.9; 0.9]%float) [0.9; 0.9; 0.9]%float = [1; 1; 1]
  /\ fs (snd (topsis "data.csv" "1,1" "+,+" "out.csv" (world_with table_three_equal)))
        !! "out.csv"
     = Some (Csv (table_three_equal
                    ++ [("Topsis Score", [CFloat 1; CFloat 1; CFloat 1; CFloat 0]%float);
                        ("Rank", [CInt 2; CInt 2; CInt 2; CInt 4])])%list).
Proof. repeat split; vm_compute; reflexivity. Qed.

(** ** numpy's sum *)

Section Summation.
Context {F : Type} `{Arith F}.

Lemma np_sum_short (l : list F) :
  (length l < 8)%nat -> np_sum l = fold_left fadd l fzero.
Proof.
  intros Hl. unfold np_sum. destruct (length l) as [|k] eqn:E; [reflexivity|].
  cbn [pairwise_sum]. cbv zeta. rewrite E.
  destruct (Nat.ltb_spec (S k) 8); [reflexivity | lia].
Qed.

(** A property of zero that addition keeps is kept by every sum. *)
Section Closed.
Variable P : F -> Prop.
Hypothesis P_zero : P fzero.
Hypothesis P_add : forall a b, P a -> P b -> P (fadd a b).

Lemma fold_closed (l : list F) (a : F) : P a -> Forall P l -> P (fold_left fadd l a).
Proof.
  intros Ha Hl. revert a Ha. induction Hl as [|x l Hx _ IH]; intros a Ha; simpl; auto.
Qed.

Lemma add_lanes_closed (r : list F) : Forall P r -> P (add_lanes r).
Proof.
  intros Hr. unfold add_lanes.
  do 8 (destruct r as [|? r]; [apply fold_closed; assumption|]).
  destruct r as [|? r]; [|apply fold_closed; assumption].
  rewrite List.Forall_forall in Hr. repeat apply P_add; apply Hr; simpl; auto 10.
Qed.

Lemma zip_add_closed (l1 l2 : list F) :
  Forall P l1 -> Forall P l2 -> Forall P (zip_with fadd l1 l2).
Proof.
  intros H1. revert l2. induction H1 as [|x l1 Hx _ IH]; intros l2 H2; simpl; [constructor|].
  destruct H2 as [|y l2 Hy H2]; constructor; auto.
Qed.

Lemma add_blocks_closed (fuel : nat) (r l : list F) :
  Forall P r -> Forall P l ->
  Forall P (fst (add_blocks fuel r l)) /\ Forall P (snd (add_blocks fuel r l)).
Proof.
  revert r l. induction fuel as [|k IH]; intros r l Hr Hl; cbn [add_blocks]; [auto|].
  destruct (8 <=? length l)%nat; [|auto].
  apply IH; [apply zip_add_closed; [assumption | apply Forall_take; assumption]
            | apply Forall_drop; assumption].
Qed.

Lemma unrolled_sum_closed (l : list F) : Forall P l -> P (unrolled_sum l).
Proof.
  intros Hl. unfold unrolled_sum.
  destruct (add_blocks_closed (length l) (firstn 8 l) (skipn 8 l)) as [Hr Hrest];
    [apply Forall_take; assumption | apply Forall_drop; assumption |].
  destruct (add_blocks (length l) (firstn 8 l) (skipn 8 l)) as [r rest]. simpl in *.
  apply fold_closed; [apply add_lanes_closed|]; assumption.
Qed.

Lemma pairwise_sum_closed (fuel : nat) (l : list F) : Forall P l -> P (pairwise_sum fuel l).
Proof.
  revert l. induction fuel as [|k IH]; intros l Hl; cbn [pairwise_sum]; cbv zeta.
  - apply fold_closed; assumption.
  - destruct (length l <? 8)%nat; [apply fold_closed; assumption|].
    destruct (length l <=? 128)%nat; [apply unrolled_sum_closed; assumption|].
    apply P_add; apply IH; [apply Forall_take | apply Forall_drop]; assumption.
Qed.

Lemma np_sum_closed (l : list F) : Forall P l -> P (np_sum l).
Proof. apply pairwise_sum_closed. Qed.

End Closed.

(** numpy's sum is a sum of its arguments. *)
Lemma sums_fold (l0 : list F) (a : F) (l : list F) :
  sums l0 a -> sums (l0 ++ l)%list (fold_left fadd l a).
Proof.
  revert l0 a. induction l as [|x l IH]; intros l0 a Ha; simpl.
  - rewrite app_nil_r. assumption.
  - replace (l0 ++ x :: l)%list with ((l0 ++ [x]) ++ l)%list
      by (rewrite <- app_assoc; reflexivity).
    apply IH. apply sums_add; [assumption | apply sums_one].
Qed.

Lemma sums_plain (l : list F) : sums l (plain_sum l).
Proof. apply (sums_fold [] fzero l sums_nil). Qed.

Lemma sums_fold_lanes (lanes : list (list F)) (r : list F) (l0 : list F) (a : F) :
  Forall2 sums lanes r -> sums l0 a ->
  sums (l0 ++ concat lanes)%list (fold_left fadd r a).
Proof.
  intros Hl. revert l0 a. induction Hl as [|ln x lanes r Hx _ IH]; intros l0 a Ha; simpl.
  - rewrite app_nil_r. assumption.
  - rewrite app_assoc. apply IH. apply sums_add; assumption.
Qed.

Lemma sums_plain_lanes (lanes : list (list F)) (r : list F) :
  Forall2 sums lanes r -> sums (concat lanes) (fold_left fadd r fzero).
Proof. intros Hl. apply (sums_fold_lanes lanes r [] fzero Hl sums_nil). Qed.

Lemma sums_add_lanes (lanes : list (list F)) (r : list F) :
  Forall2 sums lanes r -> sums (concat lanes) (add_lanes r).
Proof.
  intros Hl. unfold add_lanes.
  do 8 (destruct Hl as [|? ? ? ? ? Hl];
        [apply sums_plain_lanes; repeat constructor; assumption|]).
  destruct Hl as [|? ? ? ? ? Hl];
    [|apply sums_plain_lanes; repeat constructor; assumption].
  eapply sums_perm; [|repeat apply sums_add; eassumption].
  simpl. rewrite app_nil_r, <- !app_assoc. reflexivity.
Qed.

Lemma sums_zip_lanes (lanes : list (list F)) (r b : list F) :
  Forall2 sums lanes r -> length b = length r ->
  Forall2 sums (zip_with (fun ln x => ln ++ [x])%list lanes b) (zip_with fadd r b)
  /\ Permutation (concat (zip_with (fun ln x => ln ++ [x])%list lanes b))
                 (concat lanes ++ b)%list.
Proof.
  intros Hl. revert b. induction Hl as [|ln a lanes r Ha _ IH]; intros [|x b] Hb;
    simpl in *; try discriminate; [split; constructor|].
  destruct (IH b) as [IH1 IH2]; [lia|]. split.
  - constructor; [|assumption]. apply sums_add; [assumption | apply sums_one].
  - rewrite IH2, <- !app_assoc. apply Permutation_app_head. simpl.
    apply Permutation_middle.
Qed.

Lemma add_blocks_sums (fuel : nat) (r l : list F) (lanes : list (list F)) :
  Forall2 sums lanes r -> length r = 8%nat ->
  exists lanes',
    Forall2 sums lanes' (fst (add_blocks fuel r l))
    /\ Permutation (concat lanes' ++ snd (add_blocks fuel r l))%list (concat lanes ++ l)%list.
Proof.
  revert r l lanes. induction fuel as [|k IH]; intros r l lanes Hl Hr; cbn [add_blocks].
  - exists lanes. split; [assumption | reflexivity].
  - destruct (Nat.leb_spec 8 (length l)) as [Hlen|Hlen];
      [|exists lanes; split; [assumption | reflexivity]].
    assert (length (firstn 8 l) = length r) as Hb by (rewrite length_take; lia).
    destruct (sums_zip_lanes lanes r (firstn 8 l) Hl Hb) as [Hz Hp].
    destruct (IH _ (skipn 8 l) _ Hz) as (lanes' & Hl' & Hp').
    { rewrite length_zip_with. lia. }
    exists lanes'. split; [assumption|].
    rewrite Hp', Hp, <- app_assoc. rewrite (firstn_skipn 8 l). reflexivity.
Qed.

Lemma sums_unrolled_sum (l : list F) : (8 <= length l)%nat -> sums l (unrolled_sum l).
Proof.
  intros Hlen. unfold unrolled_sum.
  destruct (add_blocks_sums (length l) (firstn 8 l) (skipn 8 l)
                            (map (fun x => [x]) (firstn 8 l))) as (lanes & Hl & Hp).
  { generalize (firstn 8 l). intros b. induction b; simpl; constructor; auto using sums_one. }
  { rewrite length_take. lia. }
  destruct (add_blocks (length l) (firstn 8 l) (skipn 8 l)) as [r rest]. simpl in *.
  apply (sums_perm (concat lanes ++ rest)%list).
  - rewrite Hp. rewrite <- (firstn_skipn 8 l) at 3.
    apply Permutation_app_tail.
    generalize (firstn 8 l). intros b. induction b; simpl; [reflexivity | constructor; assumption].
  - apply sums_fold, sums_add_lanes. assumption.
Qed.

Lemma sums_pairwise_sum (fuel : nat) (l : list F) : sums l (pairwise_sum fuel l).
Proof.
  revert l. induction fuel as [|k IH]; intros l; cbn [pairwise_sum]; cbv zeta.
  - apply sums_plain.
  - destruct (Nat.ltb_spec (length l) 8); [apply sums_plain|].
    destruct (length l <=? 128)%nat; [apply sums_unrolled_sum; assumption|].
    rewrite <- (firstn_skipn (length l / 2 - (length l / 2) mod 8) l) at 1.
    apply sums_add; apply IH.
Qed.

Lemma sums_np_sum (l : list F) : sums l (np_sum l).
Proof. apply sums_pairwise_sum. Qed.

End Summation.

(** ** Missing values in binary64 *)

Lemma SFcompare_refl (x : spec_float) : x <> S754_nan -> SFcompare x x = Some Eq.
Proof.
  destruct x as [s|s| |s m e]; intros Hx; simpl; try congruence.
  - destruct s; reflexivity.
  - rewrite Z.compare_refl, Pos.compare_cont_refl. destruct s; reflexivity.
Qed.

Lemma isna_spec (x : float) : isna x = true <-> Prim2SF x = S754_nan.
Proof.
  unfold isna. change (feqb x x) with (PrimFloat.eqb x x).
  rewrite FloatAxioms.eqb_spec. unfold SFeqb. split.
  - intros Hc. apply negb_true_iff in Hc.
    destruct (Prim2SF x) eqn:Ex; try reflexivity;
      rewrite SFcompare_refl in Hc by discriminate; discriminate.
  - intros ->. reflexivity.
Qed.

Lemma isna_nan : isna nan = true.
Proof. reflexivity. Qed.

(** A missing factor gives a missing product. *)
Lemma isna_mul_l (x w : float) : isna x = true -> isna (fmul x w) = true.
Proof.
  rewrite !isna_spec. simpl. intros Hx. rewrite FloatAxioms.mul_spec, Hx. reflexivity.
Qed.

(** The two zeros are the only values equal to zero. *)
Lemma eqb_zero_cases (x : float) :
  feqb x fzero = true -> x = PrimFloat.zero \/ x = PrimFloat.neg_zero.
Proof.
  simpl. rewrite FloatAxioms.eqb_spec. unfold SFeqb. intros Hc.
  rewrite <- (SF2Prim_Prim2SF x).
  change (Prim2SF PrimFloat.zero) with (S754_zero false) in Hc.
  destruct (Prim2SF x) as [s|s| |s m e]; simpl in Hc; try discriminate.
  - destruct s; [right | left]; reflexivity.
  - destruct s; discriminate.
  - destruct s; discriminate.
Qed.

(** The norm of a column of zeros is zero, and [0 / 0] is NaN. *)
Lemma nansum_zeros (col : list float) :
  Forall (fun x => feqb x fzero = true) col -> nansum (map square col) = PrimFloat.zero.
Proof.
  intros Hz. unfold nansum.
  apply (np_sum_closed (fun x => x = PrimFloat.zero)); [reflexivity | intros a b -> ->; reflexivity|].
  apply List.Forall_map, List.Forall_map.
  eapply List.Forall_impl; [|exact Hz]. intros x Hx. simpl in Hx.
  destruct (eqb_zero_cases x Hx) as [-> | ->]; reflexivity.
Qed.

Lemma normalize_zero_column (col : list float) :
  Forall (fun x => feqb x fzero = true) col ->
  map (fun x => fdiv x (norm col)) col = map (fun _ => PrimFloat.nan) col.
Proof.
  intros Hz. unfold norm. rewrite (nansum_zeros col Hz).
  induction Hz as [|x l Hx _ IH]; simpl; [reflexivity|].
  f_equal; [|exact IH].
  destruct (eqb_zero_cases x Hx) as [-> | ->]; reflexivity.
Qed.

(** C2, as the code has it: no check for a zero norm exists.  For a
    validated input whose criterion column [j] holds only zeros, every entry
    of that column of the weighted matrix is NaN ([0 / 0], then times the
    weight), which the row sums and the extrema then skip; no error line is
    printed: the call either stores the result table and prints the success
    line, or, when some score is NaN, raises [ValueError] from the integer
    conversion of the ranks and leaves the files alone. *)
Theorem zero_column_gives_nan_and_no_error
        (w : world float) (input_file weights impacts output_file : string)
        (df : DataFrame float) (data : list (list float)) (ws : list float)
        (j : nat) (col : list float) :
  validated w input_file weights impacts df data ws ->
  data !! j = Some col ->
  Forall (fun x => feqb x fzero = true) col ->
  (exists wcol,
      apply_weights (normalize data) ws !! j = Some wcol
      /\ length wcol = length col
      /\ Forall (fun x => isna x = true) wcol)
  /\ (topsis input_file weights impacts output_file w
      = (Raised (ValueError msg_int_cast), w)
      \/ topsis input_file weights impacts output_file w
         = (Returned tt,
            print (msg_done output_file)
                  (to_csv output_file
                          (result_table df (topsis_scores (nrows df) data ws
                                                          (split_comma impacts))) w))).
Proof.
  intros Hv Hj Hz. split.
  - assert (length ws = length data) as Hlen.
    { rewrite (all_some_length _ _ _ (v_weights _ _ _ _ _ _ _ Hv)).
      apply (v_weight_count _ _ _ _ _ _ _ Hv). }
    destruct (lookup_lt_is_Some_2 ws j) as [wj Hwj].
    { rewrite Hlen. eapply lookup_lt_Some; eassumption. }
    exists (map (fun x => fmul x wj) (map (fun x => fdiv x (norm col)) col)).
    split; [|split].
    + unfold apply_weights, normalize.
      rewrite lookup_zip_with, list_lookup_fmap, Hj, Hwj. reflexivity.
    + rewrite !length_map. reflexivity.
    + rewrite (normalize_zero_column col Hz).
      apply List.Forall_map, List.Forall_map, List.Forall_forall.
      intros x _. apply isna_mul_l, isna_nan.
  - rewrite (topsis_validated _ _ _ _ _ _ _ _ Hv). apply score_and_save_cases.
Qed.

Lemma zero_column_gives_nan_and_no_error_witness :
  (exists wcol,
      apply_weights (normalize [[0; 0]; [16; 20]; [12; 8]]%float) [1; 1; 1]%float !! 0%nat
      = Some wcol
      /\ length wcol = length [0; 0]%float
      /\ Forall (fun x => isna x = true) wcol)
  /\ (topsis "data.csv" "1,1,1" "+,-,+" "out.csv" (world_with table_zero_column)
      = (Raised (ValueError msg_int_cast), world_with table_zero_column)
      \/ topsis "data.csv" "1,1,1" "+,-,+" "out.csv" (world_with table_zero_column)
         = (Returned tt,
            print (msg_done "out.csv")
                  (to_csv "out.csv"
                          (result_table table_zero_column
                             (topsis_scores (nrows table_zero_column)
                                            [[0; 0]; [16; 20]; [12; 8]]%float [1; 1; 1]%float
                                            (split_comma "+,-,+")))
                          (world_with table_zero_column)))).
Proof.
  apply (zero_column_gives_nan_and_no_error (world_with table_zero_column)
           "data.csv" "1,1,1" "+,-,+" "out.csv" table_zero_column
           [[0; 0]; [16; 20]; [12; 8]]%float [1; 1; 1]%float 0%nat [0; 0]%float).
  - solve_validated.
  - reflexivity.
  - repeat constructor.
Defined.

(** C2, as stated, fails: with an all-zero criterion column the call reports
    no error, scores the rows on the two remaining columns and writes the
    output file. *)
Lemma zero_column_is_scored_and_written :
  astype_float (tl table_zero_column) = Some [[0; 0]; [16; 20]; [12; 8]]%float
  /\ norm [0; 0]%float = 0%float
  /\ topsis "data.csv" "1,1,1" "+,-,+" "out.csv" (world_with table_zero_column)
     = (Returned tt,
        print (msg_done "out.csv")
              (to_csv "out.csv"
                      (table_zero_column
                         ++ [("Topsis Score", [CFloat 1; CFloat 0]%float);
                             ("Rank", [CInt 1; CInt 2])])%list
                      (world_with table_zero_column))).
Proof. repeat split; vm_compute; reflexivity. Qed.

(** ** A row that is both ideals *)

Lemma closeness_of_zeros (db dw : float) :
  feqb db fzero = true -> feqb dw fzero = true -> fdiv dw (fadd db dw) = PrimFloat.nan.
Proof.
  intros Hb Hw.
  destruct (eqb_zero_cases db Hb) as [-> | ->], (eqb_zero_cases dw Hw) as [-> | ->];
    reflexivity.
Qed.

(** C4, as the code has it: there is no fallback.  For a validated input and
    a row whose two distances are both zero, the score of that row is NaN
    ([0 / 0]), not 0.5; the integer conversion of the ranks then raises
    [ValueError], nothing is printed and no file is written. *)
Theorem zero_distances_give_nan_and_raise
        (w : world float) (input_file weights impacts output_file : string)
        (df : DataFrame float) (data : list (list float)) (ws : list float)
        (i : nat) (db dw : float) :
  validated w input_file weights impacts df data ws ->
  let weighted := apply_weights (normalize data) ws in
  distance (nrows df) weighted (ideal_best weighted (split_comma impacts)) !! i = Some db ->
  distance (nrows df) weighted (ideal_worst weighted (split_comma impacts)) !! i = Some dw ->
  feqb db fzero = true ->
  feqb dw fzero = true ->
  topsis_scores (nrows df) data ws (split_comma impacts) !! i = Some PrimFloat.nan
  /\ topsis input_file weights impacts output_file w
     = (Raised (ValueError msg_int_cast), w).
Proof.
  intros Hv weighted Hb Hw Hzb Hzw.
  assert (topsis_scores (nrows df) data ws (split_comma impacts) !! i = Some PrimFloat.nan)
    as Hscore.
  { unfold topsis_scores, closeness. fold weighted.
    apply lookup_zip_with_Some. exists db, dw.
    split; [symmetry; apply closeness_of_zeros; assumption | split; assumption]. }
  split; [exact Hscore|].
  rewrite (topsis_validated _ _ _ _ _ _ _ _ Hv).
  apply score_and_save_raises.
  exists PrimFloat.nan. split; [|reflexivity].
  apply list_elem_of_In. eapply list_elem_of_lookup_2; eassumption.
Qed.

Lemma zero_distances_give_nan_and_raise_witness :
  topsis_scores (nrows table_single_row) [[1]; [16]]%float [1; 1]%float (split_comma "+,-")
                !! 0%nat = Some PrimFloat.nan
  /\ topsis "data.csv" "1,1" "+,-" "out.csv" (world_with table_single_row)
     = (Raised (ValueError msg_int_cast), world_with table_single_row).
Proof.
  apply (zero_distances_give_nan_and_raise (world_with table_single_row)
           "data.csv" "1,1" "+,-" "out.csv" table_single_row
           [[1]; [16]]%float [1; 1]%float 0%nat 0%float 0%float).
  - solve_validated.
  - vm_compute. reflexivity.
  - vm_compute. reflexivity.
  - reflexivity.
  - reflexivity.
Defined.

(** C4, as stated, fails: a single alternative is both ideals, its score is
    NaN and not 0.5, and the call ends in [ValueError] without output. *)
Lemma single_row_scores_nan :
  distance 1 (apply_weights (normalize [[1]; [16]]%float) [1; 1]%float)
           (ideal_best (apply_weights (normalize [[1]; [16]]%float) [1; 1]%float) ["+"; "-"])
  = [0%float]
  /\ distance 1 (apply_weights (normalize [[1]; [16]]%float) [1; 1]%float)
              (ideal_worst (apply_weights (normalize [[1]; [16]]%float) [1; 1]%float) ["+"; "-"])
     = [0%float]
  /\ topsis_scores 1 [[1]; [16]]%float [1; 1]%float ["+"; "-"] = [PrimFloat.nan]
  /\ PrimFloat.eqb PrimFloat.nan 0.5 = false
  /\ topsis "data.csv" "1,1" "+,-" "out.csv" (world_with table_single_row)
     = (Raised (ValueError msg_int_cast), world_with table_single_row).
Proof. repeat split; vm_compute; reflexivity. Qed.

(** ** The order of binary64 *)

(** Case analysis on the comparison of two or three specified floats. *)
Ltac sf_cases :=
  repeat match goal with
         | s : bool |- _ => destruct s
         end;
  simpl in *; try discriminate; try congruence;
  repeat match goal with
         | H : context [(?a ?= ?b)%Z] |- _ => destruct (Z.compare_spec a b); subst
         | |- context [(?a ?= ?b)%Z] => destruct (Z.compare_spec a b); subst
         | H : context [PosDef.Pos.compare_cont Eq ?a ?b] |- _ =>
             change (PosDef.Pos.compare_cont Eq a b) with (Pos.compare a b) in *;
             destruct (Pos.compare_spec a b); subst
         | |- context [PosDef.Pos.compare_cont Eq ?a ?b] =>
             change (PosDef.Pos.compare_cont Eq a b) with (Pos.compare a b) in *;
             destruct (Pos.compare_spec a b); subst
         end;
  simpl in *; try discriminate; try congruence; try lia.

Lemma SFcompare_lt_not_eq (a b : spec_float) :
  SFcompare a b = Some Lt -> SFcompare b a <> Some Eq.
Proof.
  destruct a as [s1|s1| |s1 m1 e1], b as [s2|s2| |s2 m2 e2]; sf_cases.
Qed.

Lemma SFcompare_lt_trans (a b c : spec_float) :
  SFcompare a b = Some Lt -> SFcompare b c = Some Lt -> SFcompare a c = Some Lt.
Proof.
  destruct a as [s1|s1| |s1 m1 e1], b as [s2|s2| |s2 m2 e2], c as [s3|s3| |s3 m3 e3];
    sf_cases.
Qed.

Lemma SFcompare_lt_eq_trans (a b c : spec_float) :
  SFcompare a b = Some Lt -> SFcompare c b = Some Eq -> SFcompare a c = Some Lt.
Proof.
  destruct a as [s1|s1| |s1 m1 e1], b as [s2|s2| |s2 m2 e2], c as [s3|s3| |s3 m3 e3];
    sf_cases.
Qed.

Lemma ltb_compare (x y : float) :
  PrimFloat.ltb x y = true <-> SFcompare (Prim2SF x) (Prim2SF y) = Some Lt.
Proof.
  rewrite FloatAxioms.ltb_spec. unfold SFltb.
  destruct (SFcompare (Prim2SF x) (Prim2SF y)) as [[]|]; split; congruence.
Qed.

Lemma eqb_compare (x y : float) :
  PrimFloat.eqb x y = true <-> SFcompare (Prim2SF x) (Prim2SF y) = Some Eq.
Proof.
  rewrite FloatAxioms.eqb_spec. unfold SFeqb.
  destruct (SFcompare (Prim2SF x) (Prim2SF y)) as [[]|]; split; congruence.
Qed.

Lemma SFcompare_gt_lt (a b : spec_float) :
  SFcompare a b = Some Gt -> SFcompare b a = Some Lt.
Proof.
  destruct a as [s1|s1| |s1 m1 e1], b as [s2|s2| |s2 m2 e2]; sf_cases.
Qed.

Lemma SFcompare_eq_lt_trans (a b c : spec_float) :
  SFcompare a b = Some Eq -> SFcompare a c = Some Lt -> SFcompare b c = Some Lt.
Proof.
  destruct a as [s1|s1| |s1 m1 e1], b as [s2|s2| |s2 m2 e2], c as [s3|s3| |s3 m3 e3];
    sf_cases.
Qed.

Lemma SFcompare_present (a b : spec_float) :
  a <> S754_nan -> b <> S754_nan -> SFcompare a b <> None.
Proof.
  destruct a as [s1|s1| |s1 m1 e1], b as [s2|s2| |s2 m2 e2]; intros Ha Hb; sf_cases.
Qed.

#[export] Instance binary64_ordered : Ordered float.
Proof.
  constructor; simpl.
  - intros x y Hlt. apply ltb_compare in Hlt.
    apply not_true_is_false. intros Heq. apply eqb_compare in Heq.
    exact (SFcompare_lt_not_eq _ _ Hlt Heq).
  - intros x y z Hxy Hyz. apply ltb_compare in Hxy, Hyz. apply ltb_compare.
    exact (SFcompare_lt_trans _ _ _ Hxy Hyz).
  - intros x y z Hxy Hzy. apply ltb_compare in Hxy. apply eqb_compare in Hzy.
    apply ltb_compare. exact (SFcompare_lt_eq_trans _ _ _ Hxy Hzy).
Qed.

#[export] Instance binary64_linear : Linear float.
Proof.
  constructor.
  - intros x y Hx Hy Hxy. apply notna_isna in Hx, Hy.
    assert (Prim2SF x <> S754_nan) as Hx' by (rewrite <- isna_spec; congruence).
    assert (Prim2SF y <> S754_nan) as Hy' by (rewrite <- isna_spec; congruence).
    pose proof (SFcompare_present _ _ Hx' Hy') as Hc.
    destruct (SFcompare (Prim2SF x) (Prim2SF y)) as [[]|] eqn:Ec; [| | |congruence].
    + right. apply eqb_compare. assumption.
    + apply ltb_compare in Ec. simpl in Hxy. congruence.
    + left. apply ltb_compare, SFcompare_gt_lt. assumption.
  - intros x y z Hxy Hxz. apply eqb_compare in Hxy. apply ltb_compare in Hxz.
    apply ltb_compare. exact (SFcompare_eq_lt_trans _ _ _ Hxy Hxz).
Qed.

(** ** The pipeline against the formulas *)

Section Refinement.
Context {F : Type} `{Arith F}.

(** Without missing values the skipping reductions are the plain ones. *)
Lemma nansum_plain (l : list F) :
  Forall (fun x => notna x = true) l -> nansum l = np_sum l.
Proof.
  intros Hl. unfold nansum. f_equal.
  induction Hl as [|x l Hx _ IH]; simpl; [reflexivity|].
  apply notna_isna in Hx. rewrite Hx, IH. reflexivity.
Qed.

Lemma filter_notna_all (l : list F) :
  Forall (fun x => notna x = true) l -> List.filter notna l = l.
Proof.
  intros Hl. induction Hl as [|x l Hx _ IH]; simpl; [reflexivity|].
  rewrite Hx, IH. reflexivity.
Qed.

Lemma nanmax_plain (l : list F) :
  Forall (fun x => notna x = true) l -> nanmax l = plain_max l.
Proof. intros Hl. unfold nanmax. rewrite filter_notna_all by assumption. reflexivity. Qed.

Lemma nanmin_plain (l : list F) :
  Forall (fun x => notna x = true) l -> nanmin l = plain_min l.
Proof. intros Hl. unfold nanmin. rewrite filter_notna_all by assumption. reflexivity. Qed.

(** Reading a column entry by entry gives the column back. *)
Lemma map_nth_seq {B} (g : F -> B) (col : list F) (d : F) (n : nat) :
  length col = n -> map (fun i => g (nth i col d)) (seq 0 n) = map g col.
Proof.
  intros <-. induction col as [|x col IH]; [reflexivity|].
  cbn [length seq map]. f_equal. rewrite <- seq_shift, map_map. exact IH.
Qed.

Lemma lookup_repeat {A} (x : A) (n i : nat) :
  (i < n)%nat -> repeat x n !! i = Some x.
Proof.
  revert i. induction n as [|n IH]; intros [|i] Hi; simpl; try lia; [reflexivity|].
  apply IH. lia.
Qed.

(** Row [i] of the row sums is the sum, over the columns, of their entries
    in row [i]. *)
Lemma lookup_row_nansum (n : nat) (cols : list (list F)) (i : nat) :
  Forall (fun col => length col = n) cols ->
  present cols ->
  (i < n)%nat ->
  row_nansum n cols !! i = Some (plain_sum (map (fun col => nth i col fzero) cols)).
Proof.
  intros Hlen Hp Hi. unfold row_nansum, plain_sum.
  assert (forall (acc : list F) (a : F),
             acc !! i = Some a ->
             fold_left
               (fun acc col =>
                  zip_with fadd acc (map (fun x => if isna x then fzero else x) col))
               cols acc !! i
             = Some (fold_left fadd (map (fun col => nth i col fzero) cols) a)) as Hgen.
  { induction Hlen as [|col cols Hcol _ IH]; intros acc a Hacc; simpl; [assumption|].
    inversion Hp as [|? ? Hpc Hpr]; subst.
    apply IH; [assumption|].
    destruct (lookup_lt_is_Some_2 col i ltac:(lia)) as [x Hx].
    apply lookup_zip_with_Some. exists a, x.
    rewrite (nth_lookup_Some _ _ _ _ Hx).
    split; [reflexivity|]. split; [assumption|].
    rewrite list_lookup_fmap, Hx. simpl.
    rewrite List.Forall_forall in Hpc.
    assert (notna x = true) as Hn.
    { apply Hpc, list_elem_of_In. eapply list_elem_of_lookup_2; eassumption. }
    apply notna_isna in Hn. rewrite Hn. reflexivity. }
  apply Hgen, lookup_repeat. assumption.
Qed.

(** A list is determined by its length and its entries. *)
Lemma eq_map_seq {B} (l : list B) (f : nat -> B) (k : nat) :
  length l = k ->
  (forall j, (j < k)%nat -> l !! j = Some (f j)) ->
  l = map f (seq 0 k).
Proof.
  intros Hlen Hl. apply list_eq. intros j.
  rewrite list_lookup_fmap.
  destruct (Nat.lt_ge_cases j k) as [Hj|Hj].
  - rewrite Hl by assumption. rewrite lookup_seq_lt by assumption. reflexivity.
  - rewrite lookup_seq_ge by assumption. simpl.
    apply lookup_ge_None. lia.
Qed.

Lemma zip_with_map_seq {B C D} (g : B -> C -> D) (f1 : nat -> B) (f2 : nat -> C) (l : list nat) :
  zip_with g (map f1 l) (map f2 l) = map (fun i => g (f1 i) (f2 i)) l.
Proof. induction l as [|i l IH]; simpl; [|rewrite IH]; reflexivity. Qed.

Section Matrix.
Variables (n m : nat) (data : list (list F)) (ws : list F) (impacts : list string).
Hypothesis Hdata : length data = m.
Hypothesis Hws : length ws = m.
Hypothesis Himpacts : length impacts = m.
Hypothesis Hrows : Forall (fun col => length col = n) data.
Hypothesis Hvalid : Forall (fun imp => imp = "+" \/ imp = "-") impacts.

Let weighted := apply_weights (normalize data) ws.
Let best := ideal_best weighted impacts.
Let worst := ideal_worst weighted impacts.

Hypothesis Hsquares : present (map (map square) data).
Hypothesis Hweighted : present weighted.
Hypothesis Hbest : present (deviations weighted best).
Hypothesis Hworst : present (deviations weighted worst).

Lemma column_norm (j : nat) (col : list F) :
  data !! j = Some col -> norm col = entry_norm n data j.
Proof.
  intros Hj. unfold norm, entry_norm, raw.
  rewrite (nth_lookup_Some _ _ _ _ Hj).
  assert (length col = n) as Hlen.
  { rewrite List.Forall_forall in Hrows. apply Hrows, list_elem_of_In.
    eapply list_elem_of_lookup_2; eassumption. }
  rewrite (map_nth_seq square col fzero n Hlen).
  rewrite nansum_plain; [reflexivity|].
  unfold present in Hsquares. rewrite List.Forall_forall in Hsquares.
  apply Hsquares, in_map, list_elem_of_In. eapply list_elem_of_lookup_2; eassumption.
Qed.

Lemma weighted_columns : weighted = map (entry_column n data ws) (seq 0 m).
Proof.
  apply eq_map_seq.
  - unfold weighted, apply_weights, normalize.
    rewrite length_zip_with, length_map. lia.
  - intros j Hj.
    destruct (lookup_lt_is_Some_2 data j ltac:(lia)) as [col Hcol].
    destruct (lookup_lt_is_Some_2 ws j ltac:(lia)) as [wj Hwj].
    unfold weighted, apply_weights, normalize.
    apply lookup_zip_with_Some.
    exists (map (fun x => fdiv x (norm col)) col), wj.
    split; [|split; [rewrite list_lookup_fmap, Hcol; reflexivity | assumption]].
    unfold entry_column, entry_weighted, raw.
    rewrite (nth_lookup_Some _ _ _ _ Hcol), (nth_lookup_Some _ _ _ _ Hwj).
    rewrite <- (column_norm j col Hcol).
    assert (length col = n) as Hlen.
    { rewrite List.Forall_forall in Hrows. apply Hrows, list_elem_of_In.
      eapply list_elem_of_lookup_2; eassumption. }
    rewrite (map_nth_seq (fun x => fmul (fdiv x (norm col)) wj) col fzero n Hlen).
    rewrite map_map. reflexivity.
Qed.

Lemma entry_column_present (j : nat) :
  (j < m)%nat -> Forall (fun x => notna x = true) (entry_column n data ws j).
Proof.
  intros Hj. unfold present in Hweighted. rewrite weighted_columns in Hweighted.
  rewrite List.Forall_forall in Hweighted. apply Hweighted.
  apply in_map, in_seq. lia.
Qed.

Lemma ideal_vectors :
  best = map (entry_best n data ws impacts) (seq 0 m)
  /\ worst = map (entry_worst n data ws impacts) (seq 0 m).
Proof.
  unfold best, worst, ideal_best, ideal_worst. rewrite weighted_columns.
  split; apply eq_map_seq;
    try (rewrite length_zip_with, length_map, length_seq; lia);
    intros j Hj;
    destruct (lookup_lt_is_Some_2 impacts j ltac:(lia)) as [imp Himp];
    apply lookup_zip_with_Some;
    exists (entry_column n data ws j), imp;
    (split; [|split; [rewrite list_lookup_fmap, lookup_seq_lt by assumption; reflexivity
                     | assumption]]);
    unfold entry_best, entry_worst; rewrite (nth_lookup_Some _ _ _ _ Himp);
    rewrite nanmax_plain, nanmin_plain by (apply entry_column_present; assumption);
    rewrite List.Forall_forall in Hvalid;
    (destruct (Hvalid imp) as [-> | ->];
     [apply list_elem_of_In; eapply list_elem_of_lookup_2; eassumption | |]);
    reflexivity.
Qed.

(** Row [i] of a distance vector is the Euclidean distance of the formulas. *)
Lemma lookup_distance (ideal : list F) (entry_ideal : nat -> F) (i : nat) :
  ideal = map entry_ideal (seq 0 m) ->
  present (deviations weighted ideal) ->
  (i < n)%nat ->
  distance n weighted ideal !! i
  = Some (fsqrt (plain_sum
                   (map (fun j => square (fsub (entry_weighted n data ws i j) (entry_ideal j)))
                        (seq 0 m)))).
Proof.
  intros Hideal Hp Hi. unfold distance.
  rewrite list_lookup_fmap.
  assert (deviations weighted ideal
          = map (fun j => map (fun x => square (fsub x (entry_ideal j)))
                               (entry_column n data ws j))
                (seq 0 m)) as Hdev.
  { unfold deviations. rewrite weighted_columns, Hideal.
    apply (zip_with_map_seq (fun col b => map (fun x => square (fsub x b)) col)
                            (entry_column n data ws) entry_ideal). }
  rewrite lookup_row_nansum; [|..|assumption].
  - simpl. rewrite Hdev, map_map. do 3 f_equal.
    apply map_ext. intros j. unfold entry_column. rewrite map_map.
    rewrite (nth_lookup_Some _ _ fzero
               (square (fsub (entry_weighted n data ws i j) (entry_ideal j)))); [reflexivity|].
    rewrite list_lookup_fmap, lookup_seq_lt by assumption. reflexivity.
  - rewrite Hdev. apply List.Forall_map, List.Forall_forall. intros j _.
    unfold entry_column. rewrite !length_map, length_seq. reflexivity.
  - assumption.
Qed.

Lemma scores_entrywise :
  topsis_scores n data ws impacts = entry_scores n m data ws impacts.
Proof.
  destruct ideal_vectors as [Hb Hw].
  unfold topsis_scores, closeness, entry_scores.
  fold weighted. fold best. fold worst.
  assert (distance n weighted best = map (entry_d_best n m data ws impacts) (seq 0 n)) as ->.
  { apply eq_map_seq.
    - apply length_distance. rewrite weighted_columns.
      apply List.Forall_map, List.Forall_forall. intros j _.
      unfold entry_column. rewrite length_map, length_seq. reflexivity.
    - intros i Hi. apply (lookup_distance best _ i Hb Hbest Hi). }
  assert (distance n weighted worst = map (entry_d_worst n m data ws impacts) (seq 0 n)) as ->.
  { apply eq_map_seq.
    - apply length_distance. rewrite weighted_columns.
      apply List.Forall_map, List.Forall_forall. intros j _.
      unfold entry_column. rewrite length_map, length_seq. reflexivity.
    - intros i Hi. apply (lookup_distance worst _ i Hw Hworst Hi). }
  apply (zip_with_map_seq (fun db dw => fdiv dw (fadd db dw))).
Qed.

End Matrix.

End Refinement.

(** ** Maxima and minima *)

Section Extrema.
Context {F : Type} `{Linear F}.

Lemma ltb_irrefl (x : F) : notna x = true -> fltb x x = false.
Proof.
  intros Hx. apply notna_feqb in Hx. apply not_true_is_false. intros Hlt.
  rewrite (ltb_not_eqb x x Hlt) in Hx. discriminate.
Qed.

Lemma fmax_cases (x y : F) : fmax x y = x \/ fmax x y = y.
Proof. unfold fmax. destruct (fltb x y); auto. Qed.

Lemma fmin_cases (x y : F) : fmin x y = x \/ fmin x y = y.
Proof. unfold fmin. destruct (fltb y x); auto. Qed.

(** Nothing that exceeds neither argument exceeds their maximum, and the
    other way round. *)
Lemma fmax_upper (b x y : F) :
  notna x = true -> notna y = true ->
  fltb b (fmax x y) = false -> fltb b x = false /\ fltb b y = false.
Proof.
  intros Hx Hy. unfold fmax. destruct (fltb x y) eqn:Exy; intros Hb.
  - split; [|assumption]. apply not_true_is_false. intros Hbx.
    rewrite (ltb_trans b x y Hbx Exy) in Hb. discriminate.
  - split; [assumption|]. apply not_true_is_false. intros Hby.
    destruct (ltb_total x y Hx Hy Exy) as [Hyx|Heq].
    + rewrite (ltb_trans b y x Hby Hyx) in Hb. discriminate.
    + rewrite (ltb_eqb_trans b y x Hby Heq) in Hb. discriminate.
Qed.

Lemma fmin_lower (b x y : F) :
  notna x = true -> notna y = true ->
  fltb (fmin x y) b = false -> fltb x b = false /\ fltb y b = false.
Proof.
  intros Hx Hy. unfold fmin. destruct (fltb y x) eqn:Eyx; intros Hb.
  - split; [|assumption]. apply not_true_is_false. intros Hxb.
    rewrite (ltb_trans y x b Eyx Hxb) in Hb. discriminate.
  - split; [assumption|]. apply not_true_is_false. intros Hyb.
    destruct (ltb_total y x Hy Hx Eyx) as [Hxy|Heq].
    + rewrite (ltb_trans x y b Hxy Hyb) in Hb. discriminate.
    + rewrite (eqb_ltb_trans y x b Heq Hyb) in Hb. discriminate.
Qed.

Lemma fold_fmax_is_max (r : list F) (x : F) :
  notna x = true -> Forall (fun y => notna y = true) r ->
  is_max (fold_left fmax r x) (x :: r).
Proof.
  intros Hx Hr. revert x Hx. induction Hr as [|y r Hy _ IH]; intros x Hx; simpl.
  - split; [left; reflexivity|]. constructor; [apply ltb_irrefl; assumption | constructor].
  - assert (notna (fmax x y) = true) as Hxy
        by (destruct (fmax_cases x y) as [-> | ->]; assumption).
    destruct (IH _ Hxy) as [Hin Hle]. inversion Hle as [|? ? Hhd Htl]; subst.
    destruct (fmax_upper _ x y Hx Hy Hhd) as [Hbx Hby]. split.
    + destruct Hin as [Hin|Hin]; [|right; right; assumption].
      rewrite <- Hin. destruct (fmax_cases x y) as [-> | ->]; simpl; auto.
    + repeat constructor; assumption.
Qed.

Lemma fold_fmin_is_min (r : list F) (x : F) :
  notna x = true -> Forall (fun y => notna y = true) r ->
  is_min (fold_left fmin r x) (x :: r).
Proof.
  intros Hx Hr. revert x Hx. induction Hr as [|y r Hy _ IH]; intros x Hx; simpl.
  - split; [left; reflexivity|]. constructor; [apply ltb_irrefl; assumption | constructor].
  - assert (notna (fmin x y) = true) as Hxy
        by (destruct (fmin_cases x y) as [-> | ->]; assumption).
    destruct (IH _ Hxy) as [Hin Hle]. inversion Hle as [|? ? Hhd Htl]; subst.
    destruct (fmin_lower _ x y Hx Hy Hhd) as [Hbx Hby]. split.
    + destruct Hin as [Hin|Hin]; [|right; right; assumption].
      rewrite <- Hin. destruct (fmin_cases x y) as [-> | ->]; simpl; auto.
    + repeat constructor; assumption.
Qed.

Lemma plain_max_is_max (l : list F) :
  l <> [] -> Forall (fun y => notna y = true) l -> is_max (plain_max l) l.
Proof.
  intros Hne Hl. destruct Hl as [|x r Hx Hr]; [congruence|].
  apply fold_fmax_is_max; assumption.
Qed.

Lemma plain_min_is_min (l : list F) :
  l <> [] -> Forall (fun y => notna y = true) l -> is_min (plain_min l) l.
Proof.
  intros Hne Hl. destruct Hl as [|x r Hx Hr]; [congruence|].
  apply fold_fmin_is_min; assumption.
Qed.

End Extrema.

(** The entries of the pipeline satisfy the formulas. *)
Lemma entries_satisfy_formulas {F : Type} `{Linear F}
      (n m : nat) (data : list (list F)) (ws : list F) (impacts : list string) :
  (forall j, (j < m)%nat -> Forall (fun x => notna x = true) (entry_column n data ws j)) ->
  formulas n m data ws impacts
           (entry_norm n data) (entry_best n data ws impacts) (entry_worst n data ws impacts)
           (entry_d_best n m data ws impacts) (entry_d_worst n m data ws impacts)
           (entry_score n m data ws impacts).
Proof.
  intros Hcol. constructor.
  - intros j _. eexists. split; [apply sums_np_sum | reflexivity].
  - intros j Hj Hn col.
    assert (col <> []) as Hne.
    { subst col. destruct n; [lia|]. discriminate. }
    specialize (Hcol j Hj). change (entry_column n data ws j) with col in Hcol.
    unfold entry_best, entry_worst. fold col.
    split; intros ->; simpl;
      (split; [apply plain_max_is_max || apply plain_min_is_min
              | apply plain_max_is_max || apply plain_min_is_min]); assumption.
  - intros i _. eexists. split; [apply sums_plain | reflexivity].
  - intros i _. eexists. split; [apply sums_plain | reflexivity].
  - intros i _. reflexivity.
Qed.

(** C3, as the code computes it: for a validated rectangular table in whose
    computation no missing value arises (the squares of the cells, the
    weighted matrix and the squared deviations from both ideal vectors are
    free of NaN, which on binary64 rules out a zero-norm column), the scores
    of the pipeline satisfy the formulas.  There is one score per row, and
    there are column norms, ideal vectors and distances such that every norm
    is the square root of a sum of the squared cells of its column, every
    ideal value is the maximum or the minimum of its weighted column as its
    impact says, every distance is the square root of a sum of the squared
    deviations of its row, and every score is the distance to the worst over
    the sum of both distances. *)
Theorem scores_follow_the_formulas {F : Type} `{Linear F}
        (w : world F) (input_file weights impacts : string)
        (df : DataFrame F) (data : list (list F)) (ws : list F) :
  validated w input_file weights impacts df data ws ->
  rectangular df ->
  let n := nrows df in
  let m := length data in
  let impact_list := split_comma impacts in
  let weighted := apply_weights (normalize data) ws in
  present (map (map square) data) ->
  present weighted ->
  present (deviations weighted (ideal_best weighted impact_list)) ->
  present (deviations weighted (ideal_worst weighted impact_list)) ->
  let scores := topsis_scores n data ws impact_list in
  length scores = n
  /\ exists nrm best worst d_best d_worst,
      formulas n m data ws impact_list nrm best worst d_best d_worst
               (fun i => nth i scores fnan).
Proof.
  intros Hv Hrect n m impact_list weighted Hsq Hw Hb Hwo scores.
  assert (length ws = m) as Hws.
  { rewrite (all_some_length _ _ _ (v_weights _ _ _ _ _ _ _ Hv)).
    apply (v_weight_count _ _ _ _ _ _ _ Hv). }
  pose proof (v_impact_count _ _ _ _ _ _ _ Hv) as Him.
  pose proof (astype_float_rows _ _ Hrect (v_numeric _ _ _ _ _ _ _ Hv)) as Hrows.
  pose proof (v_impacts _ _ _ _ _ _ _ Hv) as Hval.
  assert (scores = entry_scores n m data ws impact_list) as Heq
      by (apply scores_entrywise; auto).
  split; [rewrite Heq; unfold entry_scores; rewrite length_map, length_seq; reflexivity|].
  exists (entry_norm n data), (entry_best n data ws impact_list),
    (entry_worst n data ws impact_list), (entry_d_best n m data ws impact_list),
    (entry_d_worst n m data ws impact_list).
  destruct (entries_satisfy_formulas n m data ws impact_list) as [G1 G2 G3 G4 G5].
  { intros j Hj. apply (entry_column_present n m data ws impact_list); auto. }
  constructor; try assumption.
  intros i Hi. rewrite Heq. unfold entry_scores.
  rewrite (nth_lookup_Some _ _ _ (entry_score n m data ws impact_list i)).
  - apply G5. assumption.
  - rewrite list_lookup_fmap, lookup_seq_lt by assumption. reflexivity.
Qed.

Lemma scores_follow_the_formulas_witness :
  length (topsis_scores (nrows table_AB) [[250; 200]; [16; 20]; [12; 8]]%float
                        [1; 1; 1]%float (split_comma "+,-,+")) = nrows table_AB
  /\ exists nrm best worst d_best d_worst,
      formulas (nrows table_AB) 3 [[250; 200]; [16; 20]; [12; 8]]%float [1; 1; 1]%float
               (split_comma "+,-,+") nrm best worst d_best d_worst
               (fun i => nth i (topsis_scores (nrows table_AB)
                                              [[250; 200]; [16; 20]; [12; 8]]%float
                                              [1; 1; 1]%float (split_comma "+,-,+"))
                             fnan).
Proof.
  apply (scores_follow_the_formulas world_AB "data.csv" "1,1,1" "+,-,+" table_AB
           [[250; 200]; [16; 20]; [12; 8]]%float [1; 1; 1]%float).
  - solve_validated.
  - repeat constructor.
  - vm_compute. repeat constructor.
  - vm_compute. repeat constructor.
  - vm_compute. repeat constructor.
  - vm_compute. repeat constructor.
Defined.

(** Missing values spread through the arithmetic of binary64. *)
Lemma isna_add_l (x y : float) : isna x = true -> isna (fadd x y) = true.
Proof.
  rewrite !isna_spec. simpl. intros Hx. rewrite FloatAxioms.add_spec, Hx. reflexivity.
Qed.

Lemma isna_add_r (x y : float) : isna y = true -> isna (fadd x y) = true.
Proof.
  rewrite !isna_spec. simpl. intros Hy. rewrite FloatAxioms.add_spec, Hy.
  destruct (Prim2SF x) as [[]|[]| |[]]; reflexivity.
Qed.

Lemma isna_sub_l (x y : float) : isna x = true -> isna (fsub x y) = true.
Proof.
  rewrite !isna_spec. simpl. intros Hx. rewrite FloatAxioms.sub_spec, Hx. reflexivity.
Qed.

Lemma isna_div_r (x y : float) : isna y = true -> isna (fdiv x y) = true.
Proof.
  rewrite !isna_spec. simpl. intros Hy. rewrite FloatAxioms.div_spec, Hy.
  destruct (Prim2SF x) as [[]|[]| |[]]; reflexivity.
Qed.

Lemma isna_sqrt (x : float) : isna x = true -> isna (fsqrt x) = true.
Proof.
  rewrite !isna_spec. simpl. intros Hx. rewrite FloatAxioms.sqrt_spec, Hx. reflexivity.
Qed.

Lemma sums_isna (l : list float) (s : float) :
  sums l s -> Exists (fun x => isna x = true) l -> isna s = true.
Proof.
  intros Hs. induction Hs as [|x|l1 l2 a b _ IH1 _ IH2|l1 l2 a Hp _ IH]; intros Hex.
  - inversion Hex.
  - inversion Hex as [? ? Hx|? ? Hx]; [assumption | inversion Hx].
  - apply Exists_app in Hex as [Hex|Hex];
      [apply isna_add_l | apply isna_add_r]; auto.
  - apply IH. apply List.Exists_exists in Hex as (x & Hin & Hx).
    apply List.Exists_exists. exists x. split; [|assumption].
    apply (Permutation_in x (Permutation_sym Hp) Hin).
Qed.

(** C3, as stated, fails: a table with an empty cell passes validation and
    no column has a zero norm; pandas skips the missing value in the norm, in
    the extrema and in the row sums, and every row gets a number for its
    score, whereas the formulas make the norm of that column, and with it
    every score, a missing value. *)
Lemma missing_cell_is_skipped_not_propagated :
  astype_float (tl table_missing_cell)
  = Some [[3; PrimFloat.nan; 4]; [1; 2; 3]]%float
  /\ all_some float64_of_string (split_comma "1,1") = Some [1; 1]%float
  /\ map norm [[3; PrimFloat.nan; 4]; [1; 2; 3]]%float = [5; 3.7416573867739413]%float
  /\ topsis_scores 3 [[3; PrimFloat.nan; 4]; [1; 2; 3]]%float [1; 1]%float ["+"; "+"]
     = [0; 0.5; 1]%float
  /\ ~ exists nrm best worst d_best d_worst,
        formulas 3 2 [[3; PrimFloat.nan; 4]; [1; 2; 3]]%float [1; 1]%float ["+"; "+"]
                 nrm best worst d_best d_worst
                 (fun i => nth i (topsis_scores 3 [[3; PrimFloat.nan; 4]; [1; 2; 3]]%float
                                                [1; 1]%float ["+"; "+"]) fnan).
Proof.
  split; [vm_compute; reflexivity|]. split; [vm_compute; reflexivity|].
  split; [vm_compute; reflexivity|]. split; [vm_compute; reflexivity|].
  intros (nrm & best & worst & d_best & d_worst & [Hn _ Hb _ Hs]).
  destruct (Hn 0%nat ltac:(lia)) as (s & Hsum & Hnrm).
  assert (isna (nrm 0%nat) = true) as Hnan.
  { rewrite Hnrm. apply isna_sqrt. apply (sums_isna _ _ Hsum).
    apply Exists_cons_tl, Exists_cons_hd. reflexivity. }
  destruct (Hb 0%nat ltac:(lia)) as (s' & Hsum' & Hdb).
  assert (isna (d_best 0%nat) = true) as Hnan'.
  { rewrite Hdb. apply isna_sqrt. apply (sums_isna _ _ Hsum').
    apply Exists_cons_hd. unfold squared, weighted_value.
    apply isna_mul_l, isna_sub_l, isna_mul_l, isna_div_r. assumption. }
  specialize (Hs 0%nat ltac:(lia)).
  assert (isna (nth 0 (topsis_scores 3 [[3; PrimFloat.nan; 4]; [1; 2; 3]]%float
                                     [1; 1]%float ["+"; "+"]) fnan) = true) as Hbad.
  { rewrite Hs. apply isna_div_r, isna_add_l. assumption. }
  vm_compute in Hbad. discriminate.
Qed.

(** ** The range of the scores *)

(** *** Rounding to binary64 *)

(** The exponent that a number of magnitude [k] is rounded at. *)
Lemma fexp_eq (k : Z) : fexp prec emax k = Z.max (k - 53) (-1074).
Proof. reflexivity. Qed.

Lemma digits2_pos_bounds (p : positive) :
  2 ^ (Zpos (digits2_pos p) - 1) <= Zpos p < 2 ^ Zpos (digits2_pos p).
Proof.
  induction p as [p IH|p IH|]; cbn [digits2_pos]; [| |simpl; lia];
    rewrite Pos2Z.inj_succ;
    replace (Z.succ (Zpos (digits2_pos p)) - 1) with (Z.succ (Zpos (digits2_pos p) - 1)) by lia;
    rewrite !Z.pow_succ_r by lia; lia.
Qed.

Lemma Zdigits2_nonneg (m : Z) : 0 <= Zdigits2 m.
Proof. destruct m; simpl; lia. Qed.

(** A number below [2 ^ k] has at most [k] binary digits. *)
Lemma Zdigits2_le (m k : Z) : 0 <= m -> 0 <= k -> m < 2 ^ k -> Zdigits2 m <= k.
Proof.
  intros Hm Hk Hlt. destruct m as [|p|p]; simpl; try lia.
  pose proof (digits2_pos_bounds p) as [Hlo _].
  apply Z.nlt_ge. intros Hd.
  assert (2 ^ k <= 2 ^ (Zpos (digits2_pos p) - 1)) by (apply Z.pow_le_mono_r; lia).
  lia.
Qed.

Lemma pow2_pos (k : Z) : 0 <= k -> 0 < 2 ^ k.
Proof. intros Hk. apply Z.pow_pos_nonneg; lia. Qed.

Lemma pow2_split (a b : Z) : 0 <= b <= a -> 2 ^ a = 2 ^ (a - b) * 2 ^ b.
Proof. intros Hab. rewrite <- Z.pow_add_r by lia. f_equal. lia. Qed.

Lemma pow2_xO (p : positive) : 2 ^ Zpos p~0 = 2 ^ Zpos p * 2 ^ Zpos p.
Proof. rewrite <- Z.pow_add_r by lia. f_equal. lia. Qed.

Lemma pow2_xI (p : positive) : 2 ^ Zpos p~1 = 2 * (2 ^ Zpos p * 2 ^ Zpos p).
Proof.
  rewrite <- Z.pow_add_r, <- Z.pow_succ_r by lia. f_equal. lia.
Qed.

(** Shifting to the right divides by a power of two. *)
Lemma shr_1_m (mrs : shr_record) : 0 <= shr_m mrs -> shr_m (shr_1 mrs) = shr_m mrs / 2.
Proof.
  destruct mrs as [m r s]. simpl. intros Hm. rewrite <- Z.div2_div.
  destruct m as [|[p|p|]|p]; try reflexivity; lia.
Qed.

Lemma iter_shr_1_m (p : positive) (mrs : shr_record) :
  0 <= shr_m mrs -> shr_m (SpecFloat.iter_pos shr_1 p mrs) = shr_m mrs / 2 ^ Zpos p.
Proof.
  revert mrs. induction p as [p IH|p IH|]; intros mrs Hm; cbn [SpecFloat.iter_pos].
  - assert (0 <= shr_m (shr_1 mrs)) as H1 by (rewrite shr_1_m by lia; apply Z.div_pos; lia).
    assert (0 <= shr_m (SpecFloat.iter_pos shr_1 p (shr_1 mrs))) as H2
        by (rewrite IH by lia; apply Z.div_pos; [lia | apply pow2_pos; lia]).
    rewrite IH, IH, shr_1_m by lia.
    rewrite !Z.div_div by (try apply pow2_pos; lia).
    rewrite pow2_xI, Z.mul_assoc. reflexivity.
  - assert (0 <= shr_m (SpecFloat.iter_pos shr_1 p mrs)) as H2
        by (rewrite IH by lia; apply Z.div_pos; [lia | apply pow2_pos; lia]).
    rewrite IH, IH by lia.
    rewrite !Z.div_div by (try apply pow2_pos; lia).
    rewrite pow2_xO. reflexivity.
  - rewrite shr_1_m by lia. reflexivity.
Qed.

Lemma shr_record_of_loc_m (m : Z) (l : location) : shr_m (shr_record_of_loc m l) = m.
Proof. destruct l as [|[]]; reflexivity. Qed.

Lemma shr_fexp_spec (m e : Z) (l : location) :
  0 <= m ->
  let e1 := Z.max e (fexp prec emax (Zdigits2 m + e)) in
  shr_m (fst (shr_fexp prec emax m e l)) = m / 2 ^ (e1 - e)
  /\ snd (shr_fexp prec emax m e l) = e1.
Proof.
  intros Hm e1. unfold shr_fexp, shr.
  destruct (fexp prec emax (Zdigits2 m + e) - e) as [|p|p] eqn:En; cbn [fst snd].
  - rewrite shr_record_of_loc_m. replace (e1 - e) with 0 by lia.
    rewrite Z.div_1_r. split; [reflexivity | lia].
  - rewrite iter_shr_1_m by (rewrite shr_record_of_loc_m; lia).
    rewrite shr_record_of_loc_m. replace (e1 - e) with (Zpos p) by lia.
    split; [reflexivity | lia].
  - rewrite shr_record_of_loc_m. replace (e1 - e) with 0 by lia.
    rewrite Z.div_1_r. split; [reflexivity | lia].
Qed.

Lemma round_nearest_even_cases (m : Z) (l : location) :
  m <= round_nearest_even m l <= m + 1.
Proof. destruct l as [|[]]; simpl; try lia. destruct (Z.even m); lia. Qed.

(** Rounding, step by step: the mantissa is cut to the exponent of its
    magnitude, moved up by at most one, and cut once more if that made it
    too long. *)
Lemma binary_round_aux_spec (sx : bool) (m e : Z) (l : location) :
  0 <= m ->
  let e1 := Z.max e (fexp prec emax (Zdigits2 m + e)) in
  let m1 := m / 2 ^ (e1 - e) in
  exists m2,
    m1 <= m2 <= m1 + 1
    /\ let e2 := Z.max e1 (fexp prec emax (Zdigits2 m2 + e1)) in
       let m3 := m2 / 2 ^ (e2 - e1) in
       binary_round_aux prec emax sx m e l
       = match m3 with
         | Z0 => S754_zero sx
         | Zpos p => if e2 <=? emax - prec then S754_finite sx p e2 else S754_infinity sx
         | Zneg _ => S754_nan
         end.
Proof.
  intros Hm e1 m1. unfold binary_round_aux.
  destruct (shr_fexp_spec m e l Hm) as [H1 H2].
  destruct (shr_fexp prec emax m e l) as [mrs' e'] eqn:E1. cbn [fst snd] in H1, H2.
  fold e1 in H1, H2. fold m1 in H1. subst e'.
  set (m2 := round_nearest_even (shr_m mrs') (loc_of_shr_record mrs')).
  assert (m1 <= m2 <= m1 + 1) as Hm2
      by (subst m2; rewrite <- H1; apply round_nearest_even_cases).
  assert (0 <= m1) as Hm1 by (apply Z.div_pos; [lia | apply pow2_pos; lia]).
  refine (ex_intro _ m2 (conj Hm2 _)).
  destruct (shr_fexp_spec m2 e1 loc_Exact ltac:(lia)) as [H3 H4].
  destruct (shr_fexp prec emax m2 e1 loc_Exact) as [mrs'' e''] eqn:E2.
  cbn [fst snd] in H3, H4. subst e''. rewrite H3. reflexivity.
Qed.

Lemma bounded_canonical (m : positive) (e : Z) :
  bounded prec emax m e = true ->
  e = Z.max (Zpos (digits2_pos m) + e - 53) (-1074) /\ e <= 971.
Proof.
  unfold bounded, canonical_mantissa. intros Hb.
  apply andb_true_iff in Hb as [Hc He].
  apply Z.eqb_eq in Hc. apply Z.leb_le in He. rewrite fexp_eq in Hc.
  split; [lia | exact He].
Qed.

Lemma SFleb_finite (p c : positive) (e ec : Z) :
  e < ec \/ (e = ec /\ Zpos p <= Zpos c) ->
  SFleb (S754_finite false p e) (S754_finite false c ec) = true.
Proof.
  intros Hle. unfold SFleb, SFcompare.
  destruct (Z.compare_spec e ec) as [Heq|Hlt|Hgt]; [|reflexivity|lia].
  change (PosDef.Pos.compare_cont Eq p c) with (Pos.compare p c).
  destruct (Pos.compare_spec p c); try reflexivity. lia.
Qed.

(** A rounded quotient below one is at most one. *)
Lemma round_le_one (q e : Z) (l : location) :
  0 <= q -> q < 2 ^ (- e) -> e <= -53 ->
  SFleb (S754_zero false) (binary_round_aux prec emax false q e l) = true
  /\ SFleb (binary_round_aux prec emax false q e l) SF_one = true.
Proof.
  intros Hq Hlt He.
  destruct (binary_round_aux_spec false q e l Hq) as (m2 & Hm2 & ->).
  pose proof (Zdigits2_le q (- e) Hq ltac:(lia) Hlt) as Hd.
  pose proof (Zdigits2_nonneg q) as Hd0.
  change (fexp prec emax) with (fun k => Z.max (k - 53) (-1074)) in *. cbv beta in *.
  set (e1 := Z.max e (Z.max (Zdigits2 q + e - 53) (-1074))) in *.
  assert (e <= e1 <= -53) as He1 by (unfold e1; lia).
  set (m1 := q / 2 ^ (e1 - e)) in *.
  assert (0 <= m1 < 2 ^ (- e1)) as Hm1.
  { split; [apply Z.div_pos; [lia | apply pow2_pos; lia]|].
    apply Z.div_lt_upper_bound; [apply pow2_pos; lia|].
    rewrite <- Z.pow_add_r by lia. replace (e1 - e + - e1) with (- e) by lia. exact Hlt. }
  assert (Zdigits2 m2 <= - e1 + 1) as Hd2.
  { apply Zdigits2_le; [lia | lia|]. rewrite Z.pow_add_r by lia. simpl (2 ^ 1). lia. }
  pose proof (Zdigits2_nonneg m2) as Hd20.
  set (e2 := Z.max e1 (Z.max (Zdigits2 m2 + e1 - 53) (-1074))) in *.
  assert (e1 <= e2 <= -52) as He2 by (unfold e2; lia).
  set (m3 := m2 / 2 ^ (e2 - e1)) in *.
  assert (0 <= m3 <= 2 ^ (- e2)) as Hm3.
  { split; [apply Z.div_pos; [lia | apply pow2_pos; lia]|].
    apply Z.div_le_upper_bound; [apply pow2_pos; lia|].
    rewrite <- Z.pow_add_r by lia. replace (e2 - e1 + - e2) with (- e1) by lia. lia. }
  destruct m3 as [|p|p] eqn:E3; [split; reflexivity | | lia].
  assert ((e2 <=? emax - prec) = true) as -> by (apply Z.leb_le; change (emax - prec) with 971; lia).
  split; [reflexivity|].
  apply SFleb_finite.
  destruct (Z.eq_dec e2 (-52)) as [Heq|Hne]; [right | left; lia].
  split; [exact Heq|]. rewrite Heq in Hm3. exact (proj2 Hm3).
Qed.

Lemma div_eucl_div (a b : Z) : Z.div_eucl a b = (a / b, a mod b).
Proof. unfold Z.div, Z.modulo. destruct (Z.div_eucl a b). reflexivity. Qed.

(** The quotient and the exponent that the division hands to the rounding. *)
Lemma SFdiv_core_binary_spec (my ms : positive) (ey es : Z) :
  let e' := Z.min (fexp prec emax (Zpos (digits2_pos my) + ey - (Zpos (digits2_pos ms) + es)))
                  (ey - es) in
  exists l,
    SFdiv_core_binary prec emax (Zpos my) ey (Zpos ms) es
    = (Zpos my * 2 ^ (ey - es - e') / Zpos ms, e', l).
Proof.
  intros e'. unfold SFdiv_core_binary. cbn [Zdigits2]. fold e'.
  assert (e' <= ey - es) as He by (subst e'; lia).
  destruct (ey - es - e') as [|s|s] eqn:Es; [| |lia].
  - rewrite div_eucl_div. eexists. rewrite Z.mul_1_r. reflexivity.
  - rewrite div_eucl_div, Z.shiftl_mul_pow2 by lia. eexists. reflexivity.
Qed.

Lemma sf_value_bounds (m : positive) (e : Z) :
  -1074 <= e ->
  2 ^ (Zpos (digits2_pos m) - 1 + e + 1074) <= sf_value m e
  /\ sf_value m e < 2 ^ (Zpos (digits2_pos m) + e + 1074).
Proof.
  intros He. unfold sf_value. pose proof (digits2_pos_bounds m) as [Hlo Hhi].
  pose proof (pow2_pos (e + 1074) ltac:(lia)) as Hp.
  replace (Zpos (digits2_pos m) - 1 + e + 1074) with (Zpos (digits2_pos m) - 1 + (e + 1074)) by lia.
  replace (Zpos (digits2_pos m) + e + 1074) with (Zpos (digits2_pos m) + (e + 1074)) by lia.
  rewrite (Z.pow_add_r 2 (Zpos (digits2_pos m) - 1) (e + 1074)) by lia.
  rewrite (Z.pow_add_r 2 (Zpos (digits2_pos m)) (e + 1074)) by lia.
  split; [apply Z.mul_le_mono_nonneg_r | apply Z.mul_lt_mono_pos_r]; lia.
Qed.

(** The smaller of two numbers has the smaller magnitude. *)
Lemma sf_value_lt_digits (m1 m2 : positive) (e1 e2 : Z) :
  -1074 <= e1 -> -1074 <= e2 ->
  sf_value m1 e1 <= sf_value m2 e2 ->
  Zpos (digits2_pos m1) + e1 <= Zpos (digits2_pos m2) + e2.
Proof.
  intros H1 H2 Hle.
  pose proof (sf_value_bounds m1 e1 H1) as [Hlo _].
  pose proof (sf_value_bounds m2 e2 H2) as [_ Hhi].
  assert (2 ^ (Zpos (digits2_pos m1) - 1 + e1 + 1074) < 2 ^ (Zpos (digits2_pos m2) + e2 + 1074))
    as Hpow by lia.
  apply Z.pow_lt_mono_r_iff in Hpow; lia.
Qed.

(** A number divided by a greater one. *)
Lemma SFdiv_lt (my ms : positive) (ey es : Z) :
  -1074 <= ey -> -1074 <= es ->
  sf_value my ey < sf_value ms es ->
  SFleb (S754_zero false)
        (SFdiv prec emax (S754_finite false my ey) (S754_finite false ms es)) = true
  /\ SFleb (SFdiv prec emax (S754_finite false my ey) (S754_finite false ms es)) SF_one = true.
Proof.
  intros Hey Hes Hlt. unfold SFdiv.
  destruct (SFdiv_core_binary_spec my ms ey es) as (l & ->). cbn [xorb].
  pose proof (sf_value_lt_digits my ms ey es Hey Hes ltac:(lia)) as Hd.
  change (fexp prec emax) with (fun k => Z.max (k - 53) (-1074)) in *. cbv beta in *.
  set (e' := Z.min (Z.max (Zpos (digits2_pos my) + ey - (Zpos (digits2_pos ms) + es) - 53)
                          (-1074)) (ey - es)).
  assert (e' <= -53) as He' by (unfold e'; lia).
  assert (e' <= ey - es) as He'' by (unfold e'; lia).
  apply round_le_one; [apply Z.div_pos; [|lia] | | exact He'].
  - apply Z.mul_nonneg_nonneg; [lia|]. apply Z.lt_le_incl, pow2_pos. lia.
  - apply Z.div_lt_upper_bound; [lia|].
    unfold sf_value in Hlt.
    pose proof (pow2_pos (es + 1074) ltac:(lia)) as Hp.
    apply (Z.mul_lt_mono_pos_r (2 ^ (es + 1074))); [exact Hp|].
    replace (Zpos my * 2 ^ (ey - es - e') * 2 ^ (es + 1074))
      with (Zpos my * 2 ^ (ey + 1074) * 2 ^ (- e')).
    2:{ rewrite <- !Z.mul_assoc, <- !Z.pow_add_r by lia. do 2 f_equal. lia. }
    replace (Zpos ms * 2 ^ (- e') * 2 ^ (es + 1074))
      with (Zpos ms * 2 ^ (es + 1074) * 2 ^ (- e')) by lia.
    apply Z.mul_lt_mono_pos_r; [apply pow2_pos; lia | exact Hlt].
Qed.

(** A number divided by itself. *)
Lemma SFdiv_same (m : positive) (e : Z) :
  SFdiv prec emax (S754_finite false m e) (S754_finite false m e) = SF_one.
Proof.
  unfold SFdiv, SFdiv_core_binary. cbn [Zdigits2 xorb].
  replace (Zpos (digits2_pos m) + e - (Zpos (digits2_pos m) + e)) with 0 by lia.
  replace (e - e) with 0 by lia.
  change (Z.min (fexp prec emax 0) 0) with (-53). change (0 - -53) with 53.
  rewrite div_eucl_div, Z.shiftl_mul_pow2 by lia.
  rewrite (Z.mul_comm (Zpos m) (2 ^ 53)), Z.div_mul, Z.mod_mul by lia.
  assert (new_location (Zpos m) 0 = loc_Exact) as ->
      by (unfold new_location, new_location_even, new_location_odd;
          destruct (Z.even (Zpos m)); reflexivity).
  reflexivity.
Qed.

(** Aligning a mantissa to a smaller exponent multiplies it by a power of
    two. *)
Lemma iter_xO_spec (m d : positive) : Zpos (Pos.iter xO m d) = Zpos m * 2 ^ Zpos d.
Proof.
  induction d as [|d IH] using Pos.peano_ind.
  - simpl. lia.
  - rewrite Pos.iter_succ, Pos2Z.inj_xO, IH, Pos2Z.inj_succ, Z.pow_succ_r by lia. lia.
Qed.

Lemma shl_align_spec (m : positive) (e e' : Z) :
  snd (shl_align m e e') = Z.min e e'
  /\ Zpos (fst (shl_align m e e')) = Zpos m * 2 ^ (e - Z.min e e').
Proof.
  unfold shl_align. destruct (e' - e) as [|d|d] eqn:Ed; cbn [fst snd].
  - replace (Z.min e e') with e by lia. rewrite Z.sub_diag. split; lia.
  - replace (Z.min e e') with e by lia. rewrite Z.sub_diag. split; lia.
  - rewrite iter_xO_spec. replace (e - Z.min e e') with (Zpos d) by lia. split; lia.
Qed.

Lemma sf_value_pos (m : positive) (e : Z) : -1074 <= e -> 0 < sf_value m e.
Proof.
  intros He. unfold sf_value. apply Z.mul_pos_pos; [lia | apply pow2_pos; lia].
Qed.

(** Rounding does not take a number below a binary64 number that it is not
    below. *)
Lemma round_ge (mz : positive) (e : Z) (l : location) (my : positive) (ey : Z) :
  -1074 <= e -> bounded prec emax my ey = true ->
  sf_value my ey <= sf_value mz e ->
  binary_round_aux prec emax false (Zpos mz) e l = S754_infinity false
  \/ exists ms es,
      binary_round_aux prec emax false (Zpos mz) e l = S754_finite false ms es
      /\ -1074 <= es /\ sf_value my ey <= sf_value ms es.
Proof.
  intros He Hb Hle.
  destruct (bounded_canonical my ey Hb) as [Hcan Hey].
  destruct (binary_round_aux_spec false (Zpos mz) e l ltac:(lia)) as (m2 & Hm2 & ->).
  change (fexp prec emax) with (fun k => Z.max (k - 53) (-1074)) in *. cbv beta in *.
  cbn [Zdigits2] in *.
  pose proof (digits2_pos_bounds mz) as [Hzlo Hzhi].
  pose proof (sf_value_bounds my ey ltac:(lia)) as [_ Hvy].
  pose proof (sf_value_pos my ey ltac:(lia)) as Hvpos.
  set (dz := Zpos (digits2_pos mz)) in *.
  set (dy := Zpos (digits2_pos my)) in *.
  assert (0 < dz) as Hdz by (unfold dz; lia).
  set (e1 := Z.max e (Z.max (dz + e - 53) (-1074))) in *.
  assert (e <= e1 /\ dz + e - 53 <= e1 /\ -1074 <= e1) as (He1 & He1' & He1'')
      by (unfold e1; lia).
  pose proof (pow2_pos (e1 - e) ltac:(lia)) as Hp1.
  pose proof (pow2_pos (e1 + 1074) ltac:(lia)) as Hq1.
  set (m1 := Zpos mz / 2 ^ (e1 - e)) in *.
  assert (0 <= m1 < 2 ^ 53) as Hm1.
  { split; [apply Z.div_pos; lia|].
    apply Z.div_lt_upper_bound; [lia|].
    rewrite <- Z.pow_add_r by lia.
    assert (2 ^ dz <= 2 ^ (e1 - e + 53)) by (apply Z.pow_le_mono_r; lia). lia. }
  assert (sf_value my ey <= m1 * 2 ^ (e1 + 1074)) as Hlo.
  { destruct (Z.eq_dec e1 e) as [Heq|Hne].
    - unfold m1. rewrite Heq, Z.sub_diag, Z.div_1_r. exact Hle.
    - destruct (Z.le_gt_cases e1 ey) as [Hc|Hc].
      + set (c := Zpos my * 2 ^ (ey - e1)).
        assert (sf_value my ey = c * 2 ^ (e1 + 1074)) as Hv.
        { unfold c, sf_value. rewrite <- Z.mul_assoc, <- Z.pow_add_r by lia.
          do 2 f_equal. lia. }
        assert (c <= m1) as Hcm.
        { apply Z.div_le_lower_bound; [lia|].
          apply (Z.mul_le_mono_pos_r _ _ (2 ^ (e + 1074))); [apply pow2_pos; lia|].
          replace (2 ^ (e1 - e) * c * 2 ^ (e + 1074)) with (c * 2 ^ (e1 + 1074)).
          2:{ rewrite (pow2_split (e1 + 1074) (e + 1074)) by lia.
              replace (e1 + 1074 - (e + 1074)) with (e1 - e) by lia. ring. }
          rewrite <- Hv. exact Hle. }
        rewrite Hv. apply Z.mul_le_mono_nonneg_r; lia.
      + assert (e1 = dz + e - 53) as He1eq by (unfold e1 in *; lia).
        assert (dy + ey <= dz + e - 1) as Hmag by lia.
        assert (2 ^ 52 <= m1) as Hm1lo.
        { apply Z.div_le_lower_bound; [lia|].
          rewrite <- Z.pow_add_r by lia.
          replace (e1 - e + 52) with (dz - 1) by lia. exact Hzlo. }
        assert (2 ^ (dy + ey + 1074) <= 2 ^ (52 + (e1 + 1074))) as Hpw
            by (apply Z.pow_le_mono_r; lia).
        rewrite (Z.pow_add_r 2 52 (e1 + 1074)) in Hpw by lia.
        assert (2 ^ 52 * 2 ^ (e1 + 1074) <= m1 * 2 ^ (e1 + 1074))
          by (apply Z.mul_le_mono_nonneg_r; lia).
        lia. }
  assert (0 <= m2 <= 2 ^ 53) as Hm2' by lia.
  pose proof (Zdigits2_nonneg m2) as Hd2.
  set (e2 := Z.max e1 (Z.max (Zdigits2 m2 + e1 - 53) (-1074))) in *.
  set (m3 := m2 / 2 ^ (e2 - e1)) in *.
  assert (m3 * 2 ^ (e2 + 1074) = m2 * 2 ^ (e1 + 1074) /\ -1074 <= e2) as [Hm3 He2].
  { destruct (Z.eq_dec m2 (2 ^ 53)) as [Heq|Hne].
    - assert (Zdigits2 m2 = 54) as Hd by (rewrite Heq; reflexivity).
      assert (e2 = e1 + 1) as -> by (unfold e2; lia).
      split; [|lia]. unfold m3.
      replace (e1 + 1 - e1) with 1 by lia. rewrite Heq.
      replace (e1 + 1 + 1074) with (1 + (e1 + 1074)) by lia.
      rewrite Z.pow_add_r by lia.
      replace (2 ^ 53 / 2 ^ 1) with (2 ^ 52) by reflexivity.
      replace (2 ^ 53) with (2 ^ 52 * 2 ^ 1) by reflexivity. ring.
    - assert (Zdigits2 m2 <= 53) as Hd by (apply Zdigits2_le; lia).
      assert (e2 = e1) as -> by (unfold e2; lia).
      split; [|lia]. unfold m3. rewrite Z.sub_diag, Z.div_1_r. reflexivity. }
  assert (sf_value my ey <= m3 * 2 ^ (e2 + 1074)) as Hfin.
  { rewrite Hm3. apply Z.le_trans with (1 := Hlo).
    apply Z.mul_le_mono_nonneg_r; lia. }
  pose proof (pow2_pos (e2 + 1074) ltac:(lia)) as Hq2.
  destruct m3 as [|p|p] eqn:E3; [lia| |lia].
  destruct (e2 <=? emax - prec); [right | left; reflexivity].
  exists p, e2. split; [reflexivity|]. split; [exact He2 | exact Hfin].
Qed.

(** A sum of two positive numbers is not below the second. *)
Lemma SFadd_ge (mx my : positive) (ex ey : Z) :
  bounded prec emax mx ex = true -> bounded prec emax my ey = true ->
  SFadd prec emax (S754_finite false mx ex) (S754_finite false my ey) = S754_infinity false
  \/ exists ms es,
      SFadd prec emax (S754_finite false mx ex) (S754_finite false my ey)
      = S754_finite false ms es
      /\ -1074 <= es /\ sf_value my ey <= sf_value ms es.
Proof.
  intros Hbx Hby.
  destruct (bounded_canonical mx ex Hbx) as [Hcx _].
  destruct (bounded_canonical my ey Hby) as [Hcy _].
  unfold SFadd. cbn [cond_Zopp].
  destruct (shl_align_spec mx ex (Z.min ex ey)) as [_ Ha].
  destruct (shl_align_spec my ey (Z.min ex ey)) as [_ Hb].
  set (a := fst (shl_align mx ex (Z.min ex ey))) in *.
  set (b := fst (shl_align my ey (Z.min ex ey))) in *.
  change (Zpos a + Zpos b) with (Zpos (a + b)).
  cbn [binary_normalize]. unfold binary_round.
  destruct (shl_align_spec (a + b) (Z.min ex ey)
              (fexp prec emax (Zpos (digits2_pos (a + b)) + Z.min ex ey))) as [He Hm].
  destruct (shl_align (a + b) (Z.min ex ey)
              (fexp prec emax (Zpos (digits2_pos (a + b)) + Z.min ex ey))) as [mz ez].
  cbn [fst snd] in He, Hm.
  change (fexp prec emax) with (fun k => Z.max (k - 53) (-1074)) in *. cbv beta in *.
  replace (Z.min ey (Z.min ex ey)) with (Z.min ex ey) in Hb by lia.
  rewrite <- He in Hm.
  apply round_ge; [lia | exact Hby|].
  unfold sf_value. rewrite Hm, Pos2Z.inj_add, Hb, <- Z.mul_assoc.
  set (P := 2 ^ (Z.min ex ey - ez) * 2 ^ (ez + 1074)).
  assert (2 ^ (ey - Z.min ex ey) * P = 2 ^ (ey + 1074)) as HP
      by (unfold P; rewrite <- !Z.pow_add_r by lia; f_equal; lia).
  assert (0 < P) as HP0 by (apply Z.mul_pos_pos; apply pow2_pos; lia).
  rewrite Z.mul_add_distr_r, <- (Z.mul_assoc (Zpos my)), HP.
  assert (0 <= Zpos a * P) by (apply Z.mul_nonneg_nonneg; lia).
  lia.
Qed.

(** Two binary64 numbers of the same value are the same number. *)
Lemma sf_value_inj (m1 m2 : positive) (e1 e2 : Z) :
  bounded prec emax m1 e1 = true -> bounded prec emax m2 e2 = true ->
  sf_value m1 e1 = sf_value m2 e2 -> m1 = m2 /\ e1 = e2.
Proof.
  intros H1 H2 Hv.
  destruct (bounded_canonical m1 e1 H1) as [Hc1 _].
  destruct (bounded_canonical m2 e2 H2) as [Hc2 _].
  pose proof (sf_value_lt_digits m1 m2 e1 e2 ltac:(lia) ltac:(lia) ltac:(lia)).
  pose proof (sf_value_lt_digits m2 m1 e2 e1 ltac:(lia) ltac:(lia) ltac:(lia)).
  assert (e1 = e2) as -> by lia. split; [|reflexivity].
  unfold sf_value in Hv. apply Z.mul_cancel_r in Hv; [congruence|].
  pose proof (pow2_pos (e2 + 1074) ltac:(lia)). lia.
Qed.

Lemma binary_round_aux_nonneg (m e : Z) (l : location) :
  SF_nonneg (binary_round_aux prec emax false m e l).
Proof.
  unfold binary_round_aux.
  destruct (shr_fexp prec emax m e l) as [mrs' e'].
  destruct (shr_fexp prec emax _ e' loc_Exact) as [mrs'' e''].
  destruct (shr_m mrs''); [exact I | | exact I].
  destruct (e'' <=? emax - prec); exact I.
Qed.

Lemma SFsqrt_nonneg (x : spec_float) : SF_nonneg (SFsqrt prec emax x).
Proof.
  destruct x as [s|[]| |[] m e]; try exact I.
  unfold SFsqrt. destruct (SFsqrt_core_binary prec emax (Zpos m) e) as [[mz ez] lz].
  apply binary_round_aux_nonneg.
Qed.

(** The closeness of two distances is a missing value or lies between zero
    and one. *)
Lemma SF_closeness_range (X Y : spec_float) :
  FloatAxioms.valid_binary X = true -> FloatAxioms.valid_binary Y = true ->
  FloatAxioms.valid_binary (SFadd prec emax X Y) = true ->
  SF_nonneg X -> SF_nonneg Y ->
  SFdiv prec emax Y (SFadd prec emax X Y) = S754_nan
  \/ (SFleb (S754_zero false) (SFdiv prec emax Y (SFadd prec emax X Y)) = true
      /\ SFleb (SFdiv prec emax Y (SFadd prec emax X Y)) SF_one = true).
Proof.
  intros HX HY HS HnX HnY.
  destruct X as [sx|sx| |sx mx ex], Y as [sy|sy| |sy my ey];
    try (destruct sx); try (destruct sy); try contradiction;
    try (left; reflexivity); try (right; split; reflexivity).
  - right. cbn [SFadd]. rewrite SFdiv_same. split; reflexivity.
  - right. cbn [SFadd]. rewrite SFdiv_same. split; reflexivity.
  - simpl in HX, HY.
    destruct (SFadd_ge mx my ex ey HX HY) as [Hinf|(ms & es & Hfin & Hes & Hle)].
    + rewrite Hinf. right. split; reflexivity.
    + rewrite Hfin in HS |- *. simpl in HS.
      destruct (bounded_canonical my ey HY) as [Hcy _].
      destruct (Z.eq_dec (sf_value my ey) (sf_value ms es)) as [Heq|Hne].
      * destruct (sf_value_inj my ms ey es HY HS Heq) as [-> ->].
        rewrite SFdiv_same. right. split; reflexivity.
      * right. apply SFdiv_lt; lia.
Qed.

Lemma closeness_range (a b : float) :
  let s := fdiv (fsqrt b) (fadd (fsqrt a) (fsqrt b)) in
  isna s = true \/ (PrimFloat.leb 0 s = true /\ PrimFloat.leb s 1 = true).
Proof.
  intros s. subst s. rewrite isna_spec, !FloatAxioms.leb_spec. simpl.
  rewrite FloatAxioms.div_spec.
  pose proof (Prim2SF_valid (PrimFloat.sqrt a + PrimFloat.sqrt b)) as HS.
  rewrite FloatAxioms.add_spec in *.
  change (Prim2SF 0) with (S754_zero false). change (Prim2SF 1) with SF_one.
  apply SF_closeness_range; try apply Prim2SF_valid; try exact HS;
    rewrite FloatAxioms.sqrt_spec; apply SFsqrt_nonneg.
Qed.

Lemma scores_range (n : nat) (data : list (list float)) (ws : list float)
      (impacts : list string) :
  Forall (fun s => isna s = true \/ (PrimFloat.leb 0 s = true /\ PrimFloat.leb s 1 = true))
         (topsis_scores n data ws impacts).
Proof.
  unfold topsis_scores, closeness, distance.
  generalize (row_nansum n (deviations (apply_weights (normalize data) ws)
                                       (ideal_best (apply_weights (normalize data) ws) impacts))).
  generalize (row_nansum n (deviations (apply_weights (normalize data) ws)
                                       (ideal_worst (apply_weights (normalize data) ws) impacts))).
  intros lw lb. revert lw. induction lb as [|a lb IH]; intros [|b lw]; simpl; constructor.
  - apply closeness_range.
  - apply IH.
Qed.

(** C6, as the code computes it: for every validated input, every score is
    a missing value (NaN) or lies between 0 and 1, both included; there is no
    fallback to 0.5.  When the call returns normally no score is NaN, so every
    score in the table that it stores lies between 0 and 1. *)
Theorem scores_nan_or_in_unit_interval
        (w : world float) (input_file weights impacts output_file : string)
        (df : DataFrame float) (data : list (list float)) (ws : list float) :
  validated w input_file weights impacts df data ws ->
  let scores := topsis_scores (nrows df) data ws (split_comma impacts) in
  Forall (fun s => isna s = true \/ (PrimFloat.leb 0 s = true /\ PrimFloat.leb s 1 = true))
         scores
  /\ (fst (topsis input_file weights impacts output_file w) = Returned tt ->
      Forall (fun s => PrimFloat.leb 0 s = true /\ PrimFloat.leb s 1 = true) scores).
Proof.
  intros Hv scores. pose proof (scores_range (nrows df) data ws (split_comma impacts)) as Hr.
  fold scores in Hr. split; [exact Hr|].
  rewrite (topsis_validated _ _ _ _ _ _ _ _ Hv). fold scores.
  destruct (all_notna_or_some_isna scores) as [Hs|Hs].
  - intros _. rewrite List.Forall_forall in Hr, Hs |- *. intros s Hin.
    destruct (Hr s Hin) as [Hn|Hok]; [|exact Hok].
    specialize (Hs s Hin). apply notna_isna in Hs. congruence.
  - unfold scores in Hs. rewrite score_and_save_raises by assumption. discriminate.
Qed.

Lemma scores_nan_or_in_unit_interval_witness :
  Forall (fun s => isna s = true \/ (PrimFloat.leb 0 s = true /\ PrimFloat.leb s 1 = true))
         (topsis_scores (nrows table_AB) [[250; 200]; [16; 20]; [12; 8]]%float
                        [1; 1; 1]%float (split_comma "+,-,+"))
  /\ (fst (topsis "data.csv" "1,1,1" "+,-,+" "out.csv" world_AB) = Returned tt ->
      Forall (fun s => PrimFloat.leb 0 s = true /\ PrimFloat.leb s 1 = true)
             (topsis_scores (nrows table_AB) [[250; 200]; [16; 20]; [12; 8]]%float
                            [1; 1; 1]%float (split_comma "+,-,+"))).
Proof.
  apply (scores_nan_or_in_unit_interval world_AB "data.csv" "1,1,1" "+,-,+" "out.csv"
           table_AB [[250; 200]; [16; 20]; [12; 8]]%float [1; 1; 1]%float).
  solve_validated.
Defined.

(** C6, as stated, fails on binary64: with weights of [1e200] the squared
    deviations overflow, both distances of both rows are infinite, and the
    scores are NaN, which is neither at least 0 nor at most 1; no column has
    a zero norm and no row has distances adding up to zero. *)
Lemma overflow_makes_scores_nan :
  all_some float64_of_string (split_comma "1e200,1e200") = Some [1e200; 1e200]%float
  /\ map norm [[1; 2]; [2; 1]]%float = [2.2360679774997898; 2.2360679774997898]%float
  /\ distance 2 (apply_weights (normalize [[1; 2]; [2; 1]]%float) [1e200; 1e200]%float)
              (ideal_best (apply_weights (normalize [[1; 2]; [2; 1]]%float)
                                         [1e200; 1e200]%float) ["+"; "+"])
     = [infinity; infinity]
  /\ distance 2 (apply_weights (normalize [[1; 2]; [2; 1]]%float) [1e200; 1e200]%float)
              (ideal_worst (apply_weights (normalize [[1; 2]; [2; 1]]%float)
                                          [1e200; 1e200]%float) ["+"; "+"])
     = [infinity; infinity]
  /\ topsis_scores 2 [[1; 2]; [2; 1]]%float [1e200; 1e200]%float ["+"; "+"]
     = [PrimFloat.nan; PrimFloat.nan]
  /\ PrimFloat.leb 0 PrimFloat.nan = false
  /\ PrimFloat.leb PrimFloat.nan 1 = false
  /\ topsis "data.csv" "1e200,1e200" "+,+" "out.csv" (world_with table_small)
     = (Raised (ValueError msg_int_cast), world_with table_small).
Proof. repeat split; vm_compute; reflexivity. Qed.

(** * Further properties of the program *)

(** ** The command line *)

(** With any number of arguments other than four after the program name,
    the script prints the usage line and does nothing else. *)
Theorem main_wrong_argument_count {F : Type} `{Arith F} (argv : list string) (w : world F) :
  length argv <> 5%nat ->
  main argv w = (Returned tt, print msg_usage w).
Proof.
  intros Hlen.
  destruct argv as [|a0 [|a1 [|a2 [|a3 [|a4 [|a5 r]]]]]]; simpl in *;
    try reflexivity; lia.
Qed.

Lemma main_wrong_argument_count_witness :
  main ["topsis.py"; "data.csv"; "1,1,1"] world_AB = (Returned tt, print msg_usage world_AB).
Proof.
  apply (main_wrong_argument_count ["topsis.py"; "data.csv"; "1,1,1"] world_AB).
  simpl. lia.
Defined.

(** ** What a call changes *)

Section CallFacts.
Context {F : Type} `{Arith F}.

Lemma invalid_same_input (w w' : world F) input_file weights impacts :
  fs w' !! input_file = fs w !! input_file ->
  invalid w input_file weights impacts -> invalid w' input_file weights impacts.
Proof.
  intros Hfs Hbad.
  destruct Hbad as [Hm|e Hm|df Hm Hc|df name col c Hm Hcol Hc Hn|df Hm Hc|df Hm Hc
                   |tok Ht Hn|tok Ht Hp Hq]; try rewrite <- Hfs in *.
  - apply missing_file; assumption.
  - eapply unreadable_table; eassumption.
  - eapply too_few_columns; eassumption.
  - eapply non_numeric_cell; eassumption.
  - eapply weight_count_mismatch; eassumption.
  - eapply impact_count_mismatch; eassumption.
  - eapply non_numeric_weight; eassumption.
  - eapply invalid_impact; eassumption.
Qed.

Lemma validated_same_input (w w' : world F) input_file weights impacts df data ws :
  fs w' !! input_file = fs w !! input_file ->
  validated w input_file weights impacts df data ws ->
  validated w' input_file weights impacts df data ws.
Proof.
  intros Hfs [Hf Hc Hd Hwc Hic Hw Hi]. constructor; try assumption. congruence.
Qed.

(** A validated input is not an invalid one. *)
Lemma validated_not_invalid (w : world F) input_file weights impacts df data ws :
  validated w input_file weights impacts df data ws ->
  ~ invalid w input_file weights impacts.
Proof.
  intros Hv Hbad.
  destruct (topsis_invalid w input_file weights impacts "" Hbad) as (line & Hline & Hrun).
  rewrite (topsis_validated _ _ _ _ _ _ _ _ Hv) in Hrun.
  destruct (score_and_save_cases df data ws (split_comma impacts) "" w) as [Hr|Hr];
    rewrite Hr in Hrun; [discriminate|].
  injection Hrun as _ Hrun. apply app_inv_head in Hrun. injection Hrun as Hrun.
  destruct Hline as [(f & ->)|[(e & ->)|Hin]]; [discriminate | discriminate|].
  simpl in Hin. destruct Hin as [<-|[<-|[<-|[<-|[<-|[]]]]]]; discriminate.
Qed.

End CallFacts.

Lemma topsis_other_files {F : Type} `{Arith F}
      (w : world F) (input_file weights impacts output_file path : string) :
  path <> output_file ->
  fs (snd (topsis input_file weights impacts output_file w)) !! path = fs w !! path.
Proof.
  intros Hp.
  destruct (validated_or_invalid w input_file weights impacts) as [Hbad|(df & data & ws & Hv)].
  - destruct (topsis_invalid w input_file weights impacts output_file Hbad)
      as (line & _ & ->). reflexivity.
  - rewrite (topsis_validated _ _ _ _ _ _ _ _ Hv).
    destruct (score_and_save_cases df data ws (split_comma impacts) output_file w)
      as [-> | ->]; simpl; [reflexivity|].
    apply lookup_insert_ne. congruence.
Qed.

(** Whatever the arguments, a call leaves every file other than the output
    file as it was; in particular the input file, unless it is named as the
    output. *)
Theorem topsis_touches_only_output {F : Type} `{Arith F}
        (w : world F) (input_file weights impacts output_file path : string) :
  path <> output_file ->
  fs (snd (topsis input_file weights impacts output_file w)) !! path = fs w !! path.
Proof. apply topsis_other_files. Qed.

Lemma topsis_touches_only_output_witness :
  fs (snd (topsis "data.csv" "1,1,1" "+,-,+" "out.csv" world_AB)) !! "data.csv"
  = fs world_AB !! "data.csv".
Proof.
  apply (topsis_touches_only_output world_AB "data.csv" "1,1,1" "+,-,+" "out.csv" "data.csv").
  discriminate.
Defined.

(** For an input that passes validation and has a NaN among its scores,
    the call ends in the [ValueError] that the integer conversion of the
    ranks raises, before anything is printed or written. *)
Theorem topsis_nan_score_raises {F : Type} `{Arith F}
        (w : world F) (input_file weights impacts output_file : string)
        (df : DataFrame F) (data : list (list F)) (ws : list F) (x : F) :
  validated w input_file weights impacts df data ws ->
  In x (topsis_scores (nrows df) data ws (split_comma impacts)) ->
  isna x = true ->
  exists msg,
    topsis input_file weights impacts output_file w = (Raised (ValueError msg), w).
Proof.
  intros Hv Hx Hn. exists msg_int_cast.
  rewrite (topsis_validated _ _ _ _ _ _ _ _ Hv).
  apply score_and_save_raises. eauto.
Qed.

Lemma topsis_nan_score_raises_witness :
  exists msg,
    topsis "data.csv" "1e200,1e200" "+,+" "out.csv" (world_with table_small)
    = (Raised (ValueError msg), world_with table_small).
Proof.
  apply (topsis_nan_score_raises (world_with table_small) "data.csv" "1e200,1e200" "+,+"
           "out.csv" table_small [[1; 2]; [2; 1]]%float [1e200; 1e200]%float PrimFloat.nan).
  - solve_validated.
  - vm_compute. auto.
  - reflexivity.
Defined.

(** When the success line has been printed, the input passed validation, no
    score is NaN, and the result table is at the output path. *)
Theorem success_line_means_stored {F : Type} `{Arith F}
        (w : world F) (input_file weights impacts output_file : string) :
  stdout (snd (topsis input_file weights impacts output_file w))
  = (stdout w ++ [msg_done output_file])%list ->
  exists df data ws,
    validated w input_file weights impacts df data ws
    /\ Forall (fun x => notna x = true)
              (topsis_scores (nrows df) data ws (split_comma impacts))
    /\ fs (snd (topsis input_file weights impacts output_file w)) !! output_file
       = Some (Csv (result_table df (topsis_scores (nrows df) data ws
                                                   (split_comma impacts)))).
Proof.
  intros Hout.
  destruct (validated_or_invalid w input_file weights impacts) as [Hbad|(df & data & ws & Hv)].
  - exfalso.
    destruct (topsis_invalid w input_file weights impacts output_file Hbad)
      as (line & Hline & Hrun).
    rewrite Hrun in Hout. simpl in Hout. apply app_inv_head in Hout.
    injection Hout as Hout.
    destruct Hline as [(f & ->)|[(e & ->)|Hin]]; [discriminate | discriminate|].
    simpl in Hin. destruct Hin as [<-|[<-|[<-|[<-|[<-|[]]]]]]; discriminate.
  - exists df, data, ws. split; [assumption|].
    rewrite (topsis_validated _ _ _ _ _ _ _ _ Hv) in *.
    destruct (all_notna_or_some_isna (topsis_scores (nrows df) data ws (split_comma impacts)))
      as [Hs|Hs].
    + split; [assumption|]. rewrite score_and_save_ok by assumption. simpl.
      apply lookup_insert_eq.
    + exfalso. rewrite score_and_save_raises in Hout by assumption. simpl in Hout.
      rewrite <- (app_nil_r (stdout w)) in Hout at 1.
      apply app_inv_head in Hout. discriminate.
Qed.

Lemma success_line_means_stored_witness :
  exists df data ws,
    validated world_AB "data.csv" "1,1,1" "+,-,+" df data ws
    /\ Forall (fun x => notna x = true)
              (topsis_scores (nrows df) data ws (split_comma "+,-,+"))
    /\ fs (snd (topsis "data.csv" "1,1,1" "+,-,+" "out.csv" world_AB)) !! "out.csv"
       = Some (Csv (result_table df (topsis_scores (nrows df) data ws
                                                   (split_comma "+,-,+")))).
Proof.
  apply (success_line_means_stored world_AB "data.csv" "1,1,1" "+,-,+" "out.csv").
  vm_compute. reflexivity.
Defined.

(** Running the same call again, on the files the first run left, gives the
    same outcome and leaves the files as the first run left them, provided
    the output file is not the input file. *)
Theorem topsis_rerun_same_files {F : Type} `{Arith F}
        (w : world F) (input_file weights impacts output_file : string) :
  input_file <> output_file ->
  let first := topsis input_file weights impacts output_file w in
  let second := topsis input_file weights impacts output_file (snd first) in
  fst second = fst first /\ fs (snd second) = fs (snd first).
Proof.
  intros Hio first second.
  assert (fs (snd first) !! input_file = fs w !! input_file) as Hin
      by (apply topsis_other_files; assumption).
  subst second.
  destruct (validated_or_invalid w input_file weights impacts) as [Hbad|(df & data & ws & Hv)].
  - pose proof (invalid_same_input w (snd first) _ _ _ Hin Hbad) as Hbad'.
    destruct (topsis_invalid _ _ _ _ output_file Hbad') as (line' & _ & ->).
    subst first.
    destruct (topsis_invalid _ _ _ _ output_file Hbad) as (line & _ & ->).
    split; reflexivity.
  - pose proof (validated_same_input w (snd first) _ _ _ _ _ _ Hin Hv) as Hv'.
    rewrite (topsis_validated _ _ _ _ _ _ _ _ Hv'). subst first.
    rewrite (topsis_validated _ _ _ _ _ _ _ _ Hv).
    destruct (all_notna_or_some_isna (topsis_scores (nrows df) data ws (split_comma impacts)))
      as [Hs|Hs].
    + rewrite !score_and_save_ok by assumption. simpl.
      split; [reflexivity|]. apply insert_insert_eq.
    + rewrite !score_and_save_raises by assumption. split; reflexivity.
Qed.

Lemma topsis_rerun_same_files_witness :
  let first := topsis "data.csv" "1,1,1" "+,-,+" "out.csv" world_AB in
  let second := topsis "data.csv" "1,1,1" "+,-,+" "out.csv" (snd first) in
  fst second = fst first /\ fs (snd second) = fs (snd first).
Proof.
  apply (topsis_rerun_same_files world_AB "data.csv" "1,1,1" "+,-,+" "out.csv").
  discriminate.
Defined.

(** When the output file is the input file, the second run reads the result
    of the first: its two new columns count as criteria, so the same
    arguments are then rejected. *)
Example rerun_in_place_is_rejected :
  let first := topsis "data.csv" "1,1,1" "+,-,+" "data.csv" world_AB in
  fst first = Returned tt
  /\ topsis "data.csv" "1,1,1" "+,-,+" "data.csv" (snd first)
     = (Returned tt, print msg_count (snd first)).
Proof. split; vm_compute; reflexivity. Qed.

(** ** Splitting on commas *)

Lemma split_on_nonempty (sep : ascii) (s : string) : split_on sep s <> [].
Proof.
  destruct s as [|c r]; simpl; [discriminate|].
  destruct (Ascii.eqb c sep); [discriminate|].
  destruct (split_on sep r); discriminate.
Qed.

Lemma length_split_on (sep : ascii) (s : string) :
  length (split_on sep s) = S (count_char sep s).
Proof.
  induction s as [|c r IH]; simpl; [reflexivity|].
  destruct (Ascii.eqb c sep); simpl; [rewrite IH; reflexivity|].
  destruct (split_on sep r) eqn:E; [destruct (split_on_nonempty sep r E)|].
  simpl in *. exact IH.
Qed.

Lemma concat_split_on (sep : ascii) (s : string) :
  String.concat (String sep EmptyString) (split_on sep s) = s.
Proof.
  induction s as [|c r IH]; simpl; [reflexivity|].
  destruct (Ascii.eqb_spec c sep) as [->|Hne].
  - destruct (split_on sep r) eqn:E; [destruct (split_on_nonempty sep r E)|].
    cbn [String.concat]. cbn [String.concat] in IH. rewrite IH. reflexivity.
  - destruct (split_on sep r) as [|h t] eqn:E; [destruct (split_on_nonempty sep r E)|].
    destruct t; cbn [String.concat] in *; simpl; rewrite <- IH; reflexivity.
Qed.

Lemma split_on_no_separator (sep : ascii) (s tok : string) :
  In tok (split_on sep s) -> count_char sep tok = 0%nat.
Proof.
  revert tok. induction s as [|c r IH]; simpl; intros tok.
  - intros [<-|[]]. reflexivity.
  - destruct (Ascii.eqb c sep) eqn:Ec.
    + intros [<-|Hin]; [reflexivity | auto].
    + destruct (split_on sep r) as [|h t] eqn:E; [destruct (split_on_nonempty sep r E)|].
      intros [<-|Hin].
      * simpl. rewrite Ec. apply IH. left; reflexivity.
      * apply IH. right; assumption.
Qed.

(** [split(",")] loses nothing: there is one token more than there are
    commas, no token holds a comma, and joining the tokens with commas gives
    the string back. *)
Theorem split_comma_round_trip (s : string) :
  length (split_comma s) = S (count_char "," s)
  /\ Forall (fun tok => count_char "," tok = 0%nat) (split_comma s)
  /\ String.concat "," (split_comma s) = s.
Proof.
  unfold split_comma. split; [apply length_split_on|]. split.
  - apply List.Forall_forall. intros tok. apply split_on_no_separator.
  - apply concat_split_on.
Qed.

Lemma length_string_split_on (sep : ascii) (s : string) :
  String.length s
  = (fold_right (fun tok acc => String.length tok + acc) 0 (split_on sep s)
     + count_char sep s)%nat.
Proof.
  induction s as [|c r IH]; simpl; [reflexivity|].
  destruct (Ascii.eqb c sep); simpl.
  - rewrite IH. lia.
  - destruct (split_on sep r) as [|h t] eqn:E; [destruct (split_on_nonempty sep r E)|].
    simpl in *. rewrite IH. lia.
Qed.

(** The shape of accepted argument strings: for a table of [k] columns both
    strings hold exactly [k - 2] commas, and the impact string, made of
    one-character tokens, is [2 * (k - 1) - 1] characters long. *)
Theorem validated_argument_shape {F : Type} `{Arith F}
        (w : world F) (input_file weights impacts : string)
        (df : DataFrame F) (data : list (list F)) (ws : list F) :
  validated w input_file weights impacts df data ws ->
  count_char "," weights = (length df - 2)%nat
  /\ count_char "," impacts = (length df - 2)%nat
  /\ String.length impacts = (2 * (length df - 1) - 1)%nat.
Proof.
  intros [Hf Hc Hd Hwc Hic Hw Hi].
  pose proof (astype_float_length _ _ Hd) as Hlen.
  assert (length (tl df) = (length df - 1)%nat) as Htl by (destruct df; simpl; lia).
  unfold split_comma in *. rewrite length_split_on in Hwc, Hic.
  split; [lia|]. split; [lia|].
  rewrite (length_string_split_on "," impacts).
  assert (fold_right (fun tok acc => (String.length tok + acc)%nat) 0%nat (split_on "," impacts)
          = length (split_on "," impacts)) as ->.
  { induction Hi as [|tok l Htok _ IH]; simpl; [reflexivity|].
    rewrite IH. destruct Htok as [-> | ->]; reflexivity. }
  rewrite length_split_on. lia.
Qed.

Lemma validated_argument_shape_witness :
  count_char "," "1,1,1" = (length table_AB - 2)%nat
  /\ count_char "," "+,-,+" = (length table_AB - 2)%nat
  /\ String.length "+,-,+" = (2 * (length table_AB - 1) - 1)%nat.
Proof.
  apply (validated_argument_shape world_AB "data.csv" "1,1,1" "+,-,+" table_AB
           [[250; 200]; [16; 20]; [12; 8]]%float [1; 1; 1]%float).
  solve_validated.
Defined.

(** ** Ranks and the order of the scores *)

Section RankOrder.
Context {F : Type} `{Ordered F}.

Lemma filter_disjoint_le (p q r : F -> bool) (l : list F) :
  (forall z, p z = true -> r z = true) ->
  (forall z, q z = true -> r z = true) ->
  (forall z, p z = true -> q z = false) ->
  (length (List.filter p l) + length (List.filter q l) <= length (List.filter r l))%nat.
Proof.
  intros Hp Hq Hd. induction l as [|z l IH]; simpl; [lia|].
  destruct (p z) eqn:Ep, (q z) eqn:Eq.
  - rewrite (Hd z Ep) in Eq. discriminate.
  - rewrite (Hp z Ep). simpl. lia.
  - rewrite (Hq z Eq). simpl. lia.
  - destruct (r z); simpl; lia.
Qed.

Lemma greater_and_equal_le_length (x : F) (s : list F) :
  (count_greater x s + count_equal x s <= length s)%nat.
Proof.
  unfold count_greater, count_equal.
  pose proof (filter_disjoint_le (fun y => fltb x y) (fun y => feqb y x) (fun _ => true) s
                (fun _ _ => eq_refl) (fun _ _ => eq_refl) (ltb_not_eqb x)) as Hle.
  assert (List.filter (fun _ : F => true) s = s) as Hall
      by (clear; induction s; simpl; congruence).
  rewrite Hall in Hle. exact Hle.
Qed.

Lemma greater_of_better (x y : F) (s : list F) :
  fltb x y = true ->
  (count_greater y s + count_equal y s <= count_greater x s)%nat.
Proof.
  intros Hxy. unfold count_greater, count_equal.
  apply filter_disjoint_le.
  - intros z Hz. exact (ltb_trans x y z Hxy Hz).
  - intros z Hz. exact (ltb_eqb_trans x y z Hxy Hz).
  - intros z. apply ltb_not_eqb.
Qed.

Lemma lookup_int_ranks (s : list F) (i : nat) (x : F) :
  Forall (fun x => notna x = true) s ->
  s !! i = Some x ->
  int_ranks s !! i
  = Some (Z.of_nat (count_greater x s) + (Z.of_nat (count_equal x s) + 1) / 2)
  /\ (0 < count_equal x s)%nat.
Proof.
  intros Hs Hi.
  assert (In x s) as Hin by (apply list_elem_of_In; eapply list_elem_of_lookup_2; eassumption).
  assert (0 < count_equal x s)%nat as Hpos.
  { apply count_equal_pos; [assumption|]. rewrite List.Forall_forall in Hs. auto. }
  split; [|assumption].
  unfold int_ranks. rewrite list_lookup_fmap, Hi. simpl.
  rewrite qtrunc_average_position by assumption. reflexivity.
Qed.

End RankOrder.

(** With no missing score every rank lies between 1 and the number of
    rows. *)
Theorem ranks_between_one_and_row_count {F : Type} `{Ordered F} (s : list F) :
  Forall (fun x => notna x = true) s ->
  Forall (fun r => 1 <= r <= Z.of_nat (length s)) (int_ranks s).
Proof.
  intros Hs. apply List.Forall_forall. intros r Hr.
  apply list_elem_of_In, list_elem_of_lookup in Hr as [i Hi].
  destruct (lookup_lt_is_Some_2 s i) as [x Hx].
  { apply lookup_lt_Some in Hi. unfold int_ranks in Hi. rewrite length_map in Hi. exact Hi. }
  destruct (lookup_int_ranks s i x Hs Hx) as [Hrank Hpos].
  rewrite Hrank in Hi. injection Hi as <-.
  pose proof (greater_and_equal_le_length x s) as Hle.
  set (t := Z.of_nat (count_equal x s)) in *.
  assert (0 < t) by lia.
  pose proof (Z.div_mod (t + 1) 2 ltac:(lia)).
  pose proof (Z.mod_pos_bound (t + 1) 2 ltac:(lia)).
  lia.
Qed.

Lemma ranks_between_one_and_row_count_witness :
  Forall (fun r => 1 <= r <= Z.of_nat (length [0.9; 0.9; 0.5]%float))
         (int_ranks [0.9; 0.9; 0.5]%float).
Proof.
  apply (ranks_between_one_and_row_count [0.9; 0.9; 0.5]%float).
  repeat constructor.
Defined.

(** With no missing score, a row with a strictly greater score has a
    strictly smaller rank. *)
Theorem greater_score_smaller_rank {F : Type} `{Ordered F}
        (s : list F) (i j : nat) (x y : F) :
  Forall (fun x => notna x = true) s ->
  s !! i = Some x ->
  s !! j = Some y ->
  fltb x y = true ->
  exists rx ry,
    int_ranks s !! i = Some rx /\ int_ranks s !! j = Some ry /\ ry < rx.
Proof.
  intros Hs Hi Hj Hxy.
  destruct (lookup_int_ranks s i x Hs Hi) as [Hrx Hpx].
  destruct (lookup_int_ranks s j y Hs Hj) as [Hry Hpy].
  eexists _, _. split; [exact Hrx|]. split; [exact Hry|].
  pose proof (greater_of_better x y s Hxy) as Hle.
  set (tx := Z.of_nat (count_equal x s)) in *.
  set (ty := Z.of_nat (count_equal y s)) in *.
  assert (0 < tx) by lia. assert (0 < ty) by lia.
  pose proof (Z.div_mod (tx + 1) 2 ltac:(lia)).
  pose proof (Z.mod_pos_bound (tx + 1) 2 ltac:(lia)).
  pose proof (Z.div_mod (ty + 1) 2 ltac:(lia)).
  pose proof (Z.mod_pos_bound (ty + 1) 2 ltac:(lia)).
  lia.
Qed.

Lemma greater_score_smaller_rank_witness :
  exists rx ry,
    int_ranks [0.9; 0.9; 0.5]%float !! 2%nat = Some rx
    /\ int_ranks [0.9; 0.9; 0.5]%float !! 0%nat = Some ry
    /\ ry < rx.
Proof.
  apply (greater_score_smaller_rank [0.9; 0.9; 0.5]%float 2 0 0.5%float 0.9%float).
  - repeat constructor.
  - reflexivity.
  - reflexivity.
  - reflexivity.
Defined.

(** ** Reversing the impacts *)

Section Flip.
Context {F : Type} `{Arith F}.

Lemma ideal_best_flip (weighted : list (list F)) (impacts : list string) :
  Forall (fun imp => imp = "+" \/ imp = "-") impacts ->
  ideal_best weighted (map flip_impact impacts) = ideal_worst weighted impacts.
Proof.
  intros Hi. revert weighted.
  induction Hi as [|imp l Himp _ IH]; intros [|col cols]; simpl; try reflexivity.
  f_equal; [|apply IH].
  destruct Himp as [-> | ->]; reflexivity.
Qed.

Lemma ideal_worst_flip (weighted : list (list F)) (impacts : list string) :
  Forall (fun imp => imp = "+" \/ imp = "-") impacts ->
  ideal_worst weighted (map flip_impact impacts) = ideal_best weighted impacts.
Proof.
  intros Hi. revert weighted.
  induction Hi as [|imp l Himp _ IH]; intros [|col cols]; simpl; try reflexivity.
  f_equal; [|apply IH].
  destruct Himp as [-> | ->]; reflexivity.
Qed.

End Flip.

Lemma scores_of_flipped_impacts {F : Type} `{Arith F}
      (n : nat) (data : list (list F)) (ws : list F) (impacts : list string) :
  Forall (fun imp => imp = "+" \/ imp = "-") impacts ->
  topsis_scores n data ws (map flip_impact impacts)
  = zip_with (fun db dw => fdiv db (fadd dw db))
             (distance n (apply_weights (normalize data) ws)
                       (ideal_best (apply_weights (normalize data) ws) impacts))
             (distance n (apply_weights (normalize data) ws)
                       (ideal_worst (apply_weights (normalize data) ws) impacts)).
Proof.
  intros Hi. unfold topsis_scores, closeness.
  rewrite ideal_best_flip, ideal_worst_flip by assumption.
  generalize (distance n (apply_weights (normalize data) ws)
                       (ideal_best (apply_weights (normalize data) ws) impacts)).
  generalize (distance n (apply_weights (normalize data) ws)
                       (ideal_worst (apply_weights (normalize data) ws) impacts)).
  intros l1. induction l1 as [|a l1 IH]; intros [|b l2]; simpl; try reflexivity.
  f_equal. apply IH.
Qed.

(** Reversing every impact exchanges the two ideal vectors, hence the two
    distances of every row: the score becomes the distance to the old ideal
    best over the sum of both. *)
Theorem flipped_impacts_swap_distances {F : Type} `{Arith F}
        (n : nat) (data : list (list F)) (ws : list F) (impacts : list string) :
  Forall (fun imp => imp = "+" \/ imp = "-") impacts ->
  let weighted := apply_weights (normalize data) ws in
  topsis_scores n data ws (map flip_impact impacts)
  = zip_with (fun db dw => fdiv db (fadd dw db))
             (distance n weighted (ideal_best weighted impacts))
             (distance n weighted (ideal_worst weighted impacts)).
Proof. intros Hi weighted. apply scores_of_flipped_impacts. assumption. Qed.

Lemma flipped_impacts_swap_distances_witness :
  topsis_scores 2 [[250; 200]; [16; 20]; [12; 8]]%float [1; 1; 1]%float
                (map flip_impact ["+"; "-"; "+"])
  = zip_with (fun db dw => fdiv db (fadd dw db))
             (distance 2 (apply_weights (normalize [[250; 200]; [16; 20]; [12; 8]]%float)
                                        [1; 1; 1]%float)
                       (ideal_best (apply_weights (normalize [[250; 200]; [16; 20]; [12; 8]]%float)
                                                  [1; 1; 1]%float) ["+"; "-"; "+"]))
             (distance 2 (apply_weights (normalize [[250; 200]; [16; 20]; [12; 8]]%float)
                                        [1; 1; 1]%float)
                       (ideal_worst (apply_weights (normalize [[250; 200]; [16; 20]; [12; 8]]%float)
                                                   [1; 1; 1]%float) ["+"; "-"; "+"])).
Proof.
  apply (flipped_impacts_swap_distances 2 [[250; 200]; [16; 20]; [12; 8]]%float
           [1; 1; 1]%float ["+"; "-"; "+"]).
  solve_impacts.
Defined.

(** ** Rows at an ideal point *)

Lemma Forall_length_weighted {F : Type} `{Arith F} (n : nat) (data : list (list F)) ws :
  Forall (fun col => length col = n) data ->
  Forall (fun col => length col = n) (apply_weights (normalize data) ws).
Proof.
  intros Hd. unfold apply_weights.
  apply (Forall_length_zip_with_map n (fun x w => fmul x w)), Forall_length_normalize, Hd.
Qed.

(** A number minus itself is zero, or a missing value when the number is
    infinite or missing. *)
Lemma sub_self (x : float) : isna (fsub x x) = true \/ fsub x x = PrimFloat.zero.
Proof.
  simpl. destruct (Prim2SF x) as [s|s| |s m e] eqn:Ex.
  - right. rewrite <- (SF2Prim_Prim2SF (x - x)), FloatAxioms.sub_spec, Ex.
    destruct s; reflexivity.
  - left. apply isna_spec. rewrite FloatAxioms.sub_spec, Ex. destruct s; reflexivity.
  - left. apply isna_spec. rewrite FloatAxioms.sub_spec, Ex. reflexivity.
  - right. rewrite <- (SF2Prim_Prim2SF (x - x)), FloatAxioms.sub_spec, Ex.
    unfold SF64sub, SFsub. rewrite Z.sub_diag. reflexivity.
Qed.

(** The squared deviation of an entry from itself counts as zero in a sum
    that skips missing values. *)
Lemma deviation_from_self (b : float) :
  (if isna (square (fsub b b)) then fzero else square (fsub b b)) = PrimFloat.zero.
Proof.
  destruct (sub_self b) as [Hn| ->].
  - unfold square. rewrite (isna_mul_l _ _ Hn). reflexivity.
  - reflexivity.
Qed.

(** A row that meets an ideal vector in every column is at distance zero
    from it. *)
Lemma distance_zero_at_ideal
      (n : nat) (weighted : list (list float)) (ideal : list float) (i : nat) :
  Forall (fun col => length col = n) weighted ->
  (i < n)%nat ->
  (forall j col b, weighted !! j = Some col -> ideal !! j = Some b -> col !! i = Some b) ->
  distance n weighted ideal !! i = Some PrimFloat.zero.
Proof.
  intros Hlen Hi Hrow. unfold distance, row_nansum. rewrite list_lookup_fmap.
  assert (forall (cols : list (list float)) (acc : list float),
             Forall (fun col => exists b, col !! i = Some (square (fsub b b))) cols ->
             acc !! i = Some PrimFloat.zero ->
             fold_left
               (fun acc col =>
                  zip_with fadd acc (map (fun x => if isna x then fzero else x) col))
               cols acc !! i
             = Some PrimFloat.zero) as Hgen.
  { intros cols acc Hc. revert acc.
    induction Hc as [|col cols (b & Hb) _ IH]; intros acc Hacc; simpl; [assumption|].
    apply IH. apply lookup_zip_with_Some.
    exists PrimFloat.zero, PrimFloat.zero. split; [reflexivity|]. split; [assumption|].
    rewrite list_lookup_fmap, Hb. simpl. f_equal. apply deviation_from_self. }
  rewrite Hgen; [reflexivity | | apply lookup_repeat; assumption].
  apply List.Forall_forall. intros dcol Hd.
  apply list_elem_of_In, list_elem_of_lookup in Hd as [j Hj].
  unfold deviations in Hj.
  apply lookup_zip_with_Some in Hj as (col & b & -> & Hcol & Hb).
  exists b. rewrite list_lookup_fmap, (Hrow j col b Hcol Hb). reflexivity.
Qed.

(** A positive finite number. *)
Lemma positive_finite (x : float) :
  PrimFloat.ltb 0 x = true -> PrimFloat.ltb x infinity = true ->
  exists m e, Prim2SF x = S754_finite false m e.
Proof.
  rewrite !FloatAxioms.ltb_spec.
  change (Prim2SF 0) with (S754_zero false).
  change (Prim2SF infinity) with (S754_infinity false).
  destruct (Prim2SF x) as [s|[]| |[] m e]; try discriminate. eauto.
Qed.

Lemma closeness_at_best (dw : float) :
  PrimFloat.ltb 0 dw = true -> PrimFloat.ltb dw infinity = true ->
  fdiv dw (fadd PrimFloat.zero dw) = 1%float.
Proof.
  intros H0 Hinf. destruct (positive_finite dw H0 Hinf) as (m & e & Ex).
  change (PrimFloat.div dw (PrimFloat.add PrimFloat.zero dw) = 1%float).
  assert (PrimFloat.add PrimFloat.zero dw = dw) as ->.
  { rewrite <- (SF2Prim_Prim2SF (PrimFloat.add PrimFloat.zero dw)), FloatAxioms.add_spec, Ex.
    change (Prim2SF PrimFloat.zero) with (S754_zero false). cbn [SF64add SFadd].
    rewrite <- Ex. apply SF2Prim_Prim2SF. }
  rewrite <- (SF2Prim_Prim2SF (PrimFloat.div dw dw)), FloatAxioms.div_spec, Ex.
  unfold SF64div. rewrite SFdiv_same. reflexivity.
Qed.

Lemma closeness_at_worst (db : float) :
  PrimFloat.ltb 0 db = true -> fdiv PrimFloat.zero (fadd db PrimFloat.zero) = 0%float.
Proof.
  rewrite FloatAxioms.ltb_spec. change (Prim2SF 0) with (S754_zero false). intros H0.
  change (PrimFloat.div PrimFloat.zero (PrimFloat.add db PrimFloat.zero) = 0%float).
  rewrite <- (SF2Prim_Prim2SF (PrimFloat.div PrimFloat.zero (PrimFloat.add db PrimFloat.zero))).
  rewrite FloatAxioms.div_spec, FloatAxioms.add_spec.
  change (Prim2SF PrimFloat.zero) with (S754_zero false).
  destruct (Prim2SF db) as [s|[]| |[] m e]; try discriminate; reflexivity.
Qed.

(** A row that attains the ideal best in every column, and whose distance
    to the ideal worst is a positive finite number, has score 1. *)
Theorem row_at_ideal_best_scores_one
        (n : nat) (data : list (list float)) (ws : list float) (impacts : list string)
        (i : nat) (dw : float) :
  Forall (fun col => length col = n) data ->
  (i < n)%nat ->
  let weighted := apply_weights (normalize data) ws in
  (forall j col b,
      weighted !! j = Some col -> ideal_best weighted impacts !! j = Some b ->
      col !! i = Some b) ->
  distance n weighted (ideal_worst weighted impacts) !! i = Some dw ->
  PrimFloat.ltb 0 dw = true ->
  PrimFloat.ltb dw infinity = true ->
  topsis_scores n data ws impacts !! i = Some 1%float.
Proof.
  intros Hlen Hi weighted Hrow Hdist H0 Hinf.
  pose proof (Forall_length_weighted n data ws Hlen) as Hw. fold weighted in Hw.
  unfold topsis_scores, closeness. fold weighted. apply lookup_zip_with_Some.
  exists PrimFloat.zero, dw.
  split; [symmetry; apply closeness_at_best; assumption|]. split; [|assumption].
  apply distance_zero_at_ideal; assumption.
Qed.

(** A row that attains the ideal worst in every column, and whose distance
    to the ideal best is positive, has score 0. *)
Theorem row_at_ideal_worst_scores_zero
        (n : nat) (data : list (list float)) (ws : list float) (impacts : list string)
        (i : nat) (db : float) :
  Forall (fun col => length col = n) data ->
  (i < n)%nat ->
  let weighted := apply_weights (normalize data) ws in
  (forall j col b,
      weighted !! j = Some col -> ideal_worst weighted impacts !! j = Some b ->
      col !! i = Some b) ->
  distance n weighted (ideal_best weighted impacts) !! i = Some db ->
  PrimFloat.ltb 0 db = true ->
  topsis_scores n data ws impacts !! i = Some 0%float.
Proof.
  intros Hlen Hi weighted Hrow Hdist H0.
  pose proof (Forall_length_weighted n data ws Hlen) as Hw. fold weighted in Hw.
  unfold topsis_scores, closeness. fold weighted. apply lookup_zip_with_Some.
  exists db, PrimFloat.zero.
  split; [symmetry; apply closeness_at_worst; assumption|]. split; [assumption|].
  apply distance_zero_at_ideal; assumption.
Qed.

(** Shows that a row of a one-column table meets an ideal vector. *)
Ltac row_at_ideal :=
  intros [|j] col b Hc Hb; [|discriminate Hc];
  vm_compute in Hc, Hb; injection Hc as <-; injection Hb as <-; reflexivity.

Lemma row_at_ideal_best_scores_one_witness :
  topsis_scores 2 [[0; 1]]%float [1%float] ["+"] !! 1%nat = Some 1%float.
Proof.
  apply (row_at_ideal_best_scores_one 2 [[0; 1]]%float [1%float] ["+"] 1 1%float).
  - repeat constructor.
  - lia.
  - row_at_ideal.
  - vm_compute. reflexivity.
  - reflexivity.
  - reflexivity.
Defined.

Lemma row_at_ideal_worst_scores_zero_witness :
  topsis_scores 2 [[0; 1]]%float [1%float] ["+"] !! 0%nat = Some 0%float.
Proof.
  apply (row_at_ideal_worst_scores_zero 2 [[0; 1]]%float [1%float] ["+"] 0 1%float).
  - repeat constructor.
  - lia.
  - row_at_ideal.
  - vm_compute. reflexivity.
  - reflexivity.
Defined.

(** * The web service *)

Section ServiceFacts.
Context {F : Type}.
Variable run : string -> string -> string -> string -> world F -> outcome unit * world F.

Lemma service_accepted (req : request F) (w : world F) u weights impacts :
  accepted req u weights impacts ->
  topsis_service run req w
  = match run (upload_path u) weights impacts (result_path u)
              (save (upload_path u) (content u) w) with
    | (Raised e, w2) => (Responded (Text 500 (msg_run_error e)), w2)
    | (Returned _, w2) =>
        match fs w2 !! result_path u with
        | Some c => (Responded (SendFile (result_path u) c), w2)
        | None => (FileNotFound (result_path u), w2)
        end
    end.
Proof.
  intros (Hf & Hw & Hi & Hlen & Hv). unfold topsis_service.
  rewrite Hf, Hw, Hi, Hlen, Nat.eqb_refl. simpl.
  apply valid_impacts_iff in Hv. rewrite Hv. reflexivity.
Qed.

Lemma service_bad_request (req : request F) (w : world F) :
  bad_request req ->
  exists body, topsis_service run req w = (Responded (Text 400 body), w).
Proof.
  unfold topsis_service.
  intros [Hf|[Hw|[Hi|(weights & impacts & Hw & Hi & Hbad)]]].
  - rewrite Hf. eauto.
  - rewrite Hw. destruct (given_file (req_file req)); eauto.
  - rewrite Hi. destruct (given_file (req_file req)), (given_text (req_weights req)); eauto.
  - rewrite Hw, Hi. destruct (given_file (req_file req)) as [u|]; [|eauto].
    destruct (Nat.eqb_spec (length (split_comma weights)) (length (split_comma impacts)))
      as [Hlen|Hlen]; simpl; [|eauto].
    destruct (forallb valid_impact (split_comma impacts)) eqn:Hv; simpl; [|eauto].
    exfalso. destruct Hbad as [Hne|(tok & Ht & Hp & Hm)]; [contradiction|].
    apply valid_impacts_iff in Hv. rewrite List.Forall_forall in Hv.
    destruct (Hv tok Ht); contradiction.
Qed.

Lemma bad_request_or_accepted (req : request F) :
  bad_request req \/ exists u weights impacts, accepted req u weights impacts.
Proof.
  unfold bad_request, accepted.
  destruct (given_file (req_file req)) as [u|]; [|auto].
  destruct (given_text (req_weights req)) as [weights|]; [|auto].
  destruct (given_text (req_impacts req)) as [impacts|]; [|auto].
  destruct (Nat.eq_dec (length (split_comma weights)) (length (split_comma impacts)))
    as [Hlen|Hlen].
  2:{ left. do 3 right. exists weights, impacts. auto. }
  destruct (forallb valid_impact (split_comma impacts)) eqn:Hv.
  - right. exists u, weights, impacts. repeat split; try reflexivity; [assumption|].
    apply valid_impacts_iff. assumption.
  - left. do 3 right. exists weights, impacts. split; [reflexivity|]. split; [reflexivity|].
    right. clear -Hv.
    induction (split_comma impacts) as [|a l IH]; simpl in *; [discriminate|].
    destruct (valid_impact a) eqn:Ha.
    + destruct (IH Hv) as (tok & ? & ?). eauto.
    + exists a. split; [auto|]. split; intros ->; discriminate.
Qed.

End ServiceFacts.

(** The view answers with status 400 exactly for a request with a missing
    or empty field, with different numbers of weights and impacts, or with
    an impact other than [+] and [-]; the upload is then not saved and the
    computation is not started.  Nothing else is checked: neither that the
    weights are numbers nor that the counts fit the table. *)
Theorem service_bad_request_iff {F : Type}
        (run : string -> string -> string -> string -> world F -> outcome unit * world F)
        (req : request F) (w : world F) :
  ((exists body, fst (topsis_service run req w) = Responded (Text 400 body))
   <-> bad_request req)
  /\ (bad_request req -> snd (topsis_service run req w) = w).
Proof.
  split.
  - split.
    + intros (body & Hbody).
      destruct (bad_request_or_accepted req) as [Hbad|(u & weights & impacts & Hacc)];
        [assumption|].
      exfalso. rewrite (service_accepted run req w u weights impacts Hacc) in Hbody.
      destruct (run _ _ _ _ _) as [[v|e] w2]; simpl in Hbody; [|discriminate].
      destruct (fs w2 !! result_path u); discriminate.
    + intros Hbad. destruct (service_bad_request run req w Hbad) as (body & ->). eauto.
  - intros Hbad. destruct (service_bad_request run req w Hbad) as (body & ->). reflexivity.
Qed.

(** The service lets non-numeric weights through to the computation. *)
Example service_accepts_any_weight_text :
  accepted (Request (Some (Upload "data.csv" (Csv table_AB))) (Some "a,b,c") (Some "+,-,+"))
           (Upload "data.csv" (Csv table_AB)) "a,b,c" "+,-,+".
Proof. repeat split; try reflexivity. vm_compute. solve_impacts. Qed.

Lemma is_absolute_true (p : string) :
  is_absolute p = true -> exists r, p = String "/" r.
Proof.
  destruct p as [|c r]; [discriminate|].
  destruct c as [[] [] [] [] [] [] [] []]; simpl; try discriminate.
  intros _. exists r. reflexivity.
Qed.

(** Where the two files go: the result is always [results/result_<name>];
    the upload is [uploads/<name>], unless the client's file name starts
    with a slash, in which case it is written at that very path, outside the
    upload folder.  The two paths are never the same. *)
Theorem service_paths {F : Type} (u : upload F) :
  result_path u = "results/result_" ++ filename u
  /\ upload_path u
     = (if is_absolute (filename u) then filename u else "uploads/" ++ filename u)
  /\ upload_path u <> result_path u.
Proof.
  unfold result_path, upload_path, path_join.
  split; [reflexivity|]. split.
  - destruct (is_absolute (filename u)); reflexivity.
  - destruct (is_absolute (filename u)) eqn:Habs.
    + destruct (is_absolute_true _ Habs) as (r & ->). discriminate.
    + discriminate.
Qed.

Lemma upload_not_result {F : Type} (u : upload F) : upload_path u <> result_path u.
Proof.
  unfold result_path, upload_path, path_join.
  destruct (is_absolute (filename u)) eqn:Habs.
  - destruct (is_absolute_true _ Habs) as (r & ->). discriminate.
  - discriminate.
Qed.




(** ** The service over the command-line function *)

(** With [topsis] as the computation: when the uploaded table, or the
    arguments against it, fail the validation of [topsis], that function
    only prints its error line and returns, so the view goes on to send the
    result file.  It answers with whatever an earlier request left at the
    result path, or fails with [FileNotFoundError] when nothing is there;
    the error line never reaches the client. *)
Theorem service_on_rejected_input {F : Type} `{Arith F}
        (req : request F) (w : world F) (u : upload F) (weights impacts : string) :
  accepted req u weights impacts ->
  invalid (save (upload_path u) (content u) w) (upload_path u) weights impacts ->
  exists line,
    error_line line
    /\ topsis_service topsis req w
       = (match fs w !! result_path u with
          | Some old => Responded (SendFile (result_path u) old)
          | None => FileNotFound (result_path u)
          end,
          print line (save (upload_path u) (content u) w)).
Proof.
  intros Hacc Hbad.
  destruct (topsis_invalid _ _ _ _ (result_path u) Hbad) as (line & Hline & Hrun).
  exists line. split; [assumption|].
  rewrite (service_accepted topsis req w u weights impacts Hacc), Hrun.
  assert (fs (print line (save (upload_path u) (content u) w)) !! result_path u
          = fs w !! result_path u) as ->.
  { simpl. apply lookup_insert_ne, upload_not_result. }
  destruct (fs w !! result_path u); reflexivity.
Qed.

Lemma service_on_rejected_input_witness :
  exists line,
    error_line line
    /\ topsis_service topsis
         (Request (Some (Upload "data.csv" (Csv table_AB))) (Some "1,1") (Some "+,-"))
         (World ∅ [])
       = (match fs (World (F := float) ∅ []) !! result_path (Upload "data.csv" (Csv table_AB)) with
          | Some old => Responded (SendFile (result_path (Upload "data.csv" (Csv table_AB))) old)
          | None => FileNotFound (result_path (Upload "data.csv" (Csv table_AB)))
          end,
          print line (save (upload_path (Upload "data.csv" (Csv table_AB))) (Csv table_AB)
                           (World ∅ []))).
Proof.
  apply (service_on_rejected_input
           (Request (Some (Upload "data.csv" (Csv table_AB))) (Some "1,1") (Some "+,-"))
           (World ∅ []) (Upload "data.csv" (Csv table_AB)) "1,1" "+,-").
  - repeat split; try reflexivity. vm_compute. solve_impacts.
  - apply (weight_count_mismatch _ _ _ _ table_AB).
    + vm_compute. reflexivity.
    + vm_compute. lia.
Defined.





(** ** Missing cells on binary64 *)

(** A missing cell (NaN, an empty field of the CSV file) passes
    [astype(float)] and counts as zero in the norm of its column. *)
Theorem missing_cell_counts_as_zero_in_norm (col : list float) :
  all_some cell_to_float (map CFloat col) = Some col
  /\ norm col = norm (map (fun x => if isna x then PrimFloat.zero else x) col).
Proof.
  split.
  - induction col as [|x col IH]; simpl; [reflexivity|].
    simpl in IH. rewrite IH. reflexivity.
  - unfold norm, nansum. do 2 f_equal. rewrite !map_map.
    apply map_ext. intros x. unfold square.
    destruct (isna x) eqn:Hx.
    + rewrite (isna_mul_l x x Hx). reflexivity.
    + reflexivity.
Qed.

Example missing_cell_norm :
  norm [3; PrimFloat.nan; 4]%float = 5%float.
Proof. vm_compute. reflexivity. Qed.
